(** * plan/refiner.go: predicate classification and range refinement

    A shallow embedding of the refiner of the query planner: the condition
    classifier in its two forms ([check] over the [ast] tree and [newCheck]
    over [expression] values), the predicate splitter [detachConditions],
    the per-node range construction and the tree driver [refine].

    Go run-time panics (an index out of range) are kept apart from returned
    errors: a function that can index a slice or a string returns a
    [result], and a function that returns a Go [error] returns an
    [option error] next to the mutated node. *)

From Stdlib Require Import ZArith List String Ascii Bool Lia Permutation DecimalString.
Import ListNotations.

Set Warnings "-register-all".

Local Open Scope string_scope.
Local Open Scope list_scope.
Local Open Scope Z_scope.

(** ** Run-time outcomes *)

Inductive result (A : Type) : Type :=
| Ok (a : A)
| Panic.

Arguments Ok {A} a.
Arguments Panic {A}.

(** [l[i]] on a slice with a Go [int] index: [None] stands for the
    index-out-of-range panic. *)
Definition index {A : Type} (l : list A) (i : Z) : option A :=
  if i <? 0 then None else nth_error l (Z.to_nat i).

(** [len(l)] as a Go [int]. *)
Definition len {A : Type} (l : list A) : Z := Z.of_nat (List.length l).

(** [a && b] where both operands may panic: the right operand runs only
    when the left one returned true. *)
Definition andThen (a : result bool) (b : result bool) : result bool :=
  match a with
  | Panic => Panic
  | Ok false => Ok false
  | Ok true => b
  end.

(** The [error] interface, with the wrapping done by [errors.Trace]. *)
Inductive error : Type :=
| errorString (msg : string)
| Traced (cause : error).

(** [errors.Trace]: nil stays nil, anything else is wrapped. *)
Definition Trace (e : option error) : option error :=
  match e with
  | None => None
  | Some x => Some (Traced x)
  end.

(** ** Package model *)

Module model.

Record CIStr : Type := mkCIStr { O : string; L : string }.

Record ColumnInfo : Type := mkColumnInfo { Name : CIStr; Flag : Z }.

Record IndexColumn : Type := mkIndexColumn { IdxColName : CIStr }.

Record IndexInfo : Type := mkIndexInfo { IdxColumns : list IndexColumn }.

Record TableInfo : Type := mkTableInfo {
  TblName : CIStr;
  Columns : list ColumnInfo;
  PKIsHandle : bool
}.

End model.

(** The zero value of [model.CIStr]. *)
Definition emptyCIStr : model.CIStr := model.mkCIStr EmptyString EmptyString.

(** ** Package mysql *)

Module mysql.

(** Modelled from the spec: the column flag bits of package mysql are not
    in this file; the primary-key bit is the second bit of the flag word. *)
Definition PriKeyFlag : Z := 2.

(** Modelled from the spec: [mysql.HasPriKeyFlag] tests the primary-key
    bit of a column's flag word. *)
Definition HasPriKeyFlag (flag : Z) : bool := Z.land flag PriKeyFlag >? 0.

End mysql.

(** ** Package types *)

Module types.

(** Values carried by expression nodes and by range points.  [Null] is the
    zero [Datum] (and the nil interface value), [MaxValue] the sentinel of
    [types.MaxValueDatum]. *)
Inductive Datum : Type :=
| Null
| Int64 (i : Z)
| Uint64 (u : Z)
| Str (s : string)
| Bytes (b : string)
| Row (vs : list Z)
| MaxValue.

Definition isNil (d : Datum) : bool :=
  match d with
  | Null => true
  | _ => false
  end.

End types.

(** ** Package opcode *)

Module opcode.

Inductive Op : Type :=
| AndAnd | OrOr
| EQ | NE | GE | GT | LE | LT
| Plus | Minus | Mul | Div | Mod
| Not | BitNeg | Xor | NullEQ.

End opcode.

(** ** Package ast: the older tree form *)

Module ast.

(** The resolved reference of a column name: [Refer.Table.Name] and
    [Refer.Column.Name]. *)
Record ResultField : Type := mkResultField {
  TableName : model.CIStr;
  ColumnName : model.CIStr
}.

Inductive ExprNode : Type :=
| BinaryOperationExpr (Op : opcode.Op) (Lhs Rhs : ExprNode)
| BetweenExpr (Expr Left Right : ExprNode) (Not : bool)
| ColumnNameExpr (Refer : ResultField)
| IsNullExpr (Expr : ExprNode) (Not : bool)
| IsTruthExpr (Expr : ExprNode) (Not : bool) (True : Z)
| ParenthesesExpr (Expr : ExprNode)
| PatternInExpr (Expr : ExprNode) (List : list ExprNode) (Not : bool)
    (Sel : option ExprNode)
| PatternLikeExpr (Expr Pattern : ExprNode) (Not : bool) (Escape : ascii)
| UnaryOperationExpr (Op : opcode.Op) (V : ExprNode)
| ValueExpr (Val : types.Datum)
| FuncCallExpr (FnName : model.CIStr) (Args : list ExprNode)
| SubqueryExpr (Query : string).

(** Modelled from the spec: the function names of the scalar-function form
    are constants of package ast that are not in this file; they are
    pairwise distinct lower-case names. *)
Definition AndAnd : string := "and".
Definition OrOr : string := "or".
Definition EQ : string := "eq".
Definition NE : string := "ne".
Definition GE : string := "ge".
Definition GT : string := "gt".
Definition LE : string := "le".
Definition LT : string := "lt".
Definition IsNull : string := "isnull".
Definition IsTruth : string := "istrue".
Definition IsFalsity : string := "isfalse".
Definition UnaryNot : string := "not".

End ast.

(** ** Package expression: the newer scalar-function form *)

Module expression.

Inductive Expression : Type :=
| ScalarFunction (FuncName : model.CIStr) (Args : list Expression)
| Column (TblName ColName : model.CIStr)
| Constant (Value : types.Datum).

End expression.

Import ast expression.

(** ** The condition checker *)

Record conditionChecker : Type := mkChecker {
  tableName : model.CIStr;
  idx : option model.IndexInfo;
  columnOffset : Z;
  pkName : model.CIStr
}.

(** The tail shared by [checkColumnExpr] and [checkColumn], once the
    operand is known to be a column of table [tbl] named [col]. *)
Definition checkName (c : conditionChecker) (tbl col : model.CIStr) : result bool :=
  if negb (model.L tbl =? model.L (tableName c))%string then Ok false
  else if negb (model.L (pkName c) =? EmptyString)%string then
    Ok (model.L (pkName c) =? model.L col)%string
  else
    match idx c with
    | Some ix =>
        match index (model.IdxColumns ix) (columnOffset c) with
        | Some ic => Ok (model.L col =? model.L (model.IdxColName ic))%string
        | None => Panic
        end
    | None => Ok true
    end.

Definition checkColumnExpr (c : conditionChecker) (expr : ExprNode) : result bool :=
  match expr with
  | ColumnNameExpr cn => checkName c (TableName cn) (ColumnName cn)
  | _ => Ok false
  end.

Definition checkColumn (c : conditionChecker) (expr : Expression) : result bool :=
  match expr with
  | Column tbl col => checkName c tbl col
  | _ => Ok false
  end.

(** The capabilities of an [ast] node that live outside this file:
    [ast.IsPreEvaluable], the node's [GetValue] and [types.ToString]
    ([None] for a returned error). *)
Record nodeOps : Type := mkNodeOps {
  IsPreEvaluable : ExprNode -> bool;
  GetValue : ExprNode -> types.Datum;
  ToString : types.Datum -> option string
}.

Section OldForm.

Variable ops : nodeOps.

(** The comparison arm of [checkBinaryOperation]. *)
Definition checkComparison (c : conditionChecker) (l r : ExprNode) : result bool :=
  if IsPreEvaluable ops l then checkColumnExpr c r
  else if IsPreEvaluable ops r then checkColumnExpr c l
  else Ok false.

(** The [PatternLikeExpr] arm of [check]; [patternStr[0]] panics on the
    empty string. *)
Definition checkPatternLike (c : conditionChecker) (e pattern : ExprNode) (not : bool)
  : result bool :=
  if not then Ok false
  else
    match checkColumnExpr c e with
    | Panic => Panic
    | Ok false => Ok false
    | Ok true =>
        if negb (IsPreEvaluable ops pattern) then Ok false
        else
          let patternVal := GetValue ops pattern in
          if types.isNil patternVal then Ok false
          else
            match ToString ops patternVal with
            | None => Ok false
            | Some patternStr =>
                match patternStr with
                | EmptyString => Panic
                | String firstChar _ =>
                    Ok (negb (Ascii.eqb firstChar "%") && negb (Ascii.eqb firstChar "."))
                end
            end
    end.

(** The [PatternInExpr] arm of [check]. *)
Definition checkPatternIn (c : conditionChecker) (e : ExprNode) (l : list ExprNode)
  (not : bool) (sel : option ExprNode) : result bool :=
  if (match sel with Some _ => true | None => false end) || not then Ok false
  else
    match checkColumnExpr c e with
    | Panic => Panic
    | Ok false => Ok false
    | Ok true => Ok (forallb (IsPreEvaluable ops) l)
    end.

(** [conditionChecker.check] together with [checkBinaryOperation]. *)
Fixpoint check (c : conditionChecker) (condition : ExprNode) : result bool :=
  match condition with
  | BinaryOperationExpr op l r =>
      match op with
      | opcode.OrOr => andThen (check c l) (check c r)
      | opcode.AndAnd => andThen (check c l) (check c r)
      | opcode.EQ | opcode.NE | opcode.GE | opcode.GT | opcode.LE | opcode.LT =>
          checkComparison c l r
      | _ => Ok false
      end
  | BetweenExpr e lo hi _ =>
      if IsPreEvaluable ops lo && IsPreEvaluable ops hi then checkColumnExpr c e
      else Ok false
  | ColumnNameExpr _ => checkColumnExpr c condition
  | IsNullExpr e _ => checkColumnExpr c e
  | IsTruthExpr e _ _ => checkColumnExpr c e
  | ParenthesesExpr e => check c e
  | PatternInExpr e l not sel => checkPatternIn c e l not sel
  | PatternLikeExpr e pattern not _ => checkPatternLike c e pattern not
  | _ => Ok false
  end.

Definition checkBinaryOperation (c : conditionChecker) (op : opcode.Op) (l r : ExprNode)
  : result bool :=
  check c (BinaryOperationExpr op l r).

End OldForm.

(** ** The newer form: [newCheck] and [checkScalarFunction] *)

Definition isConstant (e : Expression) : bool :=
  match e with
  | Constant _ => true
  | _ => false
  end.

Definition isLogicName (n : string) : bool :=
  ((n =? ast.OrOr) || (n =? ast.AndAnd))%string.

Definition isCompareName (n : string) : bool :=
  ((n =? ast.EQ) || (n =? ast.NE) || (n =? ast.GE) || (n =? ast.GT)
   || (n =? ast.LE) || (n =? ast.LT))%string.

Definition isTruthName (n : string) : bool :=
  ((n =? ast.IsNull) || (n =? ast.IsTruth) || (n =? ast.IsFalsity))%string.

(** [conditionChecker.newCheck] together with [checkScalarFunction];
    [Args[0]] and [Args[1]] panic when the argument slice is too short. *)
Fixpoint newCheck (c : conditionChecker) (condition : Expression) : result bool :=
  match condition with
  | ScalarFunction name args =>
      let n := model.L name in
      if isLogicName n then
        match args with
        | [] => Panic
        | a0 :: rest =>
            andThen (newCheck c a0)
              (match rest with
               | [] => Panic
               | a1 :: _ => newCheck c a1
               end)
        end
      else if isCompareName n then
        match args with
        | a0 :: a1 :: _ =>
            if isConstant a0 then checkColumn c a1
            else if isConstant a1 then checkColumn c a0
            else Ok false
        | _ => Panic
        end
      else if isTruthName n then
        match args with
        | a0 :: _ => checkColumn c a0
        | [] => Panic
        end
      else if (n =? ast.UnaryNot)%string then
        match args with
        | a0 :: _ => newCheck c a0
        | [] => Panic
        end
      else Ok false
  | Column _ _ => checkColumn c condition
  | Constant _ => Ok true
  end.

Definition checkScalarFunction (c : conditionChecker) (name : model.CIStr)
  (args : list Expression) : result bool :=
  newCheck c (ScalarFunction name args).

(** ** The predicate splitter *)

(** The first loop of [detachConditions]: the name of the first column
    flagged as primary key, the zero [CIStr] when there is none. *)
Fixpoint findPriKey (cols : list model.ColumnInfo) : model.CIStr :=
  match cols with
  | [] => emptyCIStr
  | colInfo :: rest =>
      if mysql.HasPriKeyFlag (model.Flag colInfo) then model.Name colInfo
      else findPriKey rest
  end.

Definition detachPkName (table : model.TableInfo) : model.CIStr :=
  if model.PKIsHandle table then findPriKey (model.Columns table) else emptyCIStr.

(** The second loop of [detachConditions], appending to the two output
    slices as it goes. *)
Fixpoint detachLoop (pk : model.CIStr) (table : model.TableInfo)
  (ix : option model.IndexInfo) (colOffset : Z) (conditions : list Expression)
  (accessConditions filterConditions : list Expression)
  : result (list Expression * list Expression) :=
  match conditions with
  | [] => Ok (accessConditions, filterConditions)
  | con :: rest =>
      if negb (model.L pk =? EmptyString)%string then
        let checker := mkChecker (model.TblName table) ix colOffset pk in
        match newCheck checker con with
        | Panic => Panic
        | Ok true =>
            detachLoop pk table ix colOffset rest (accessConditions ++ [con]) filterConditions
        | Ok false =>
            detachLoop pk table ix colOffset rest accessConditions (filterConditions ++ [con])
        end
      else
        detachLoop pk table ix colOffset rest accessConditions (filterConditions ++ [con])
  end.

Definition detachConditions (conditions : list Expression) (table : model.TableInfo)
  (ix : option model.IndexInfo) (colOffset : Z)
  : result (list Expression * list Expression) :=
  detachLoop (detachPkName table) table ix colOffset conditions [] [].

(** ** Range points and ranges *)

Record rangePoint : Type := mkPoint {
  value : types.Datum;
  excl : bool;
  start : bool
}.

Definition fullRange : list rangePoint :=
  [ mkPoint types.Null false true; mkPoint types.MaxValue false false ].

Definition MinInt64 : Z := - 2 ^ 63.
Definition MaxInt64 : Z := 2 ^ 63 - 1.

Record TableRange : Type := mkTableRange { LowVal : Z; HighVal : Z }.

Record IndexRange : Type := mkIndexRange {
  IdxLowVal : list types.Datum;
  LowExclude : bool;
  IdxHighVal : list types.Datum;
  HighExclude : bool
}.

(** The range a scan without access conditions gets. *)
Definition fullTableRanges : list TableRange := [ mkTableRange MinInt64 MaxInt64 ].

(** ** The range builder, threaded as state *)

Record rangeBuilder : Type := mkRangeBuilder { err : option error }.

(** A computation over the builder that may also panic. *)
Definition RB (A : Type) : Type := rangeBuilder -> result (A * rangeBuilder).

Definition ret {A : Type} (a : A) : RB A := fun rb => Ok (a, rb).

Definition bind {A B : Type} (m : RB A) (k : A -> RB B) : RB B :=
  fun rb =>
    match m rb with
    | Panic => Panic
    | Ok (a, rb') => k a rb'
    end.

Definition lift {A : Type} (op : rangeBuilder -> A * rangeBuilder) : RB A :=
  fun rb => Ok (op rb).

(** [l[i]] inside a computation. *)
Definition at_ {A : Type} (l : list A) (i : Z) : RB A :=
  fun rb =>
    match index l i with
    | Some a => Ok (a, rb)
    | None => Panic
    end.

Notation "x <- m ;; k" := (bind m (fun x => k))
  (at level 61, m at next level, right associativity).

(** [for i := lo; i < hi; i++ { s = body(i, s) }], with [n] the number of
    iterations left. *)
Fixpoint forLoop {S : Type} (body : Z -> S -> RB S) (i : Z) (n : nat) (s : S) : RB S :=
  match n with
  | O => ret s
  | Datatypes.S n' => s' <- body i s ;; forLoop body (i + 1) n' s'
  end.

Definition forRange {S : Type} (lo hi : Z) (body : Z -> S -> RB S) (s : S) : RB S :=
  forLoop body lo (Z.to_nat (hi - lo)) s.

(** [for _, x := range l { s = body(x, s) }]. *)
Fixpoint forEach {A S : Type} (body : S -> A -> RB S) (l : list A) (s : S) : RB S :=
  match l with
  | [] => ret s
  | x :: rest => s' <- body s x ;; forEach body rest s'
  end.

(** ** Plan nodes *)

Module IndexScan.
Record t : Type := mk {
  Table : model.TableInfo;
  AccessConditions : list ExprNode;
  AccessEqualCount : Z;
  Ranges : list IndexRange
}.
Definition setRanges (p : t) (r : list IndexRange) : t :=
  mk (Table p) (AccessConditions p) (AccessEqualCount p) r.
End IndexScan.

Module TableScan.
Record t : Type := mk {
  Table : model.TableInfo;
  AccessConditions : list ExprNode;
  Ranges : list TableRange
}.
Definition setRanges (p : t) (r : list TableRange) : t :=
  mk (Table p) (AccessConditions p) r.
End TableScan.

Module NewTableScan.
Record t : Type := mk {
  Table : model.TableInfo;
  AccessCondition : list Expression;
  Ranges : list TableRange
}.
Definition setRanges (p : t) (r : list TableRange) : t :=
  mk (Table p) (AccessCondition p) r.
Definition setAccessCondition (p : t) (a : list Expression) : t :=
  mk (Table p) a (Ranges p).
End NewTableScan.

Module Selection.
Record t : Type := mk { Conditions : list Expression }.
End Selection.

Module Limit.
Record t : Type := mk { Offset : Z; Count : Z; limit : Z }.
(** Modelled from the spec: [SetLimit] is declared with the plan nodes,
    outside this file; it overwrites the node's limit tracking state. *)
Definition SetLimit (p : t) (cnt : Z) : t := mk (Offset p) (Count p) cnt.
End Limit.

(** The methods of [rangeBuilder], declared outside this file.  Each one
    may record an error in the builder. *)
Record builderOps : Type := mkBuilderOps {
  build : ExprNode -> rangeBuilder -> list rangePoint * rangeBuilder;
  newBuild : Expression -> rangeBuilder -> list rangePoint * rangeBuilder;
  intersection :
    list rangePoint -> list rangePoint -> rangeBuilder -> list rangePoint * rangeBuilder;
  buildIndexRanges :
    list rangePoint -> rangeBuilder -> list IndexRange * rangeBuilder;
  appendIndexRanges :
    list IndexRange -> list rangePoint -> rangeBuilder -> list IndexRange * rangeBuilder;
  buildTableRanges :
    list rangePoint -> rangeBuilder -> list TableRange * rangeBuilder
}.

Section Builder.

Variable m : builderOps.

(** [rb.appendIndexRanges(ranges, rb.build(cond))]. *)
Definition appendCondition (ranges : list IndexRange) (cond : ExprNode)
  : RB (list IndexRange) :=
  point <- lift (build m cond) ;;
  lift (appendIndexRanges m ranges point).

(** [rb.intersection(rangePoints, rb.build(cond))]: the argument is built
    first. *)
Definition intersectCondition (rangePoints : list rangePoint) (cond : ExprNode)
  : RB (list rangePoint) :=
  point <- lift (build m cond) ;;
  lift (intersection m rangePoints point).

(** The body of [buildIndexRange] over the builder; the value is the
    final [p.Ranges]. *)
Definition indexRangeSteps (p : IndexScan.t) : RB (list IndexRange) :=
  let conds := IndexScan.AccessConditions p in
  let k := IndexScan.AccessEqualCount p in
  ranges <-
    (if k >? 0 then
       c0 <- at_ conds 0 ;;
       point <- lift (build m c0) ;;
       r0 <- lift (buildIndexRanges m point) ;;
       forRange 1 k
         (fun i r => ci <- at_ conds i ;; appendCondition r ci) r0
     else ret (IndexScan.Ranges p)) ;;
  rangePoints <-
    forRange k (len conds)
      (fun i pts => ci <- at_ conds i ;; intersectCondition pts ci) fullRange ;;
  if k =? 0 then lift (buildIndexRanges m rangePoints)
  else if k <? len conds then lift (appendIndexRanges m ranges rangePoints)
  else ret ranges.

Definition buildIndexRange (p : IndexScan.t) : result (IndexScan.t * option error) :=
  match indexRangeSteps p (mkRangeBuilder None) with
  | Panic => Panic
  | Ok (ranges, rb) => Ok (IndexScan.setRanges p ranges, Trace (err rb))
  end.

(** The loop of [buildTableRange]. *)
Fixpoint tableRangeLoop (conds : list ExprNode) (rangePoints : list rangePoint)
  (rb : rangeBuilder) : list rangePoint * rangeBuilder :=
  match conds with
  | [] => (rangePoints, rb)
  | cond :: rest =>
      let (point, rb1) := build m cond rb in
      let (rangePoints', rb2) := intersection m rangePoints point rb1 in
      tableRangeLoop rest rangePoints' rb2
  end.

Definition buildTableRange (p : TableScan.t) : TableScan.t * option error :=
  match TableScan.AccessConditions p with
  | [] => (TableScan.setRanges p fullTableRanges, None)
  | _ :: _ =>
      let (rangePoints, rb) :=
        tableRangeLoop (TableScan.AccessConditions p) fullRange (mkRangeBuilder None) in
      let (ranges, rb') := buildTableRanges m rangePoints rb in
      (TableScan.setRanges p ranges, Trace (err rb'))
  end.

(** The loop of [buildNewTableRange]: [inl e] is the early return with the
    builder's error. *)
Fixpoint newTableRangeLoop (conds : list Expression) (rangePoints : list rangePoint)
  (rb : rangeBuilder) : error + list rangePoint * rangeBuilder :=
  match conds with
  | [] => inr (rangePoints, rb)
  | cond :: rest =>
      let (point, rb1) := newBuild m cond rb in
      let (rangePoints', rb2) := intersection m rangePoints point rb1 in
      match err rb2 with
      | Some e => inl e
      | None => newTableRangeLoop rest rangePoints' rb2
      end
  end.

Definition buildNewTableRange (p : NewTableScan.t) (accessConditions : list Expression)
  : NewTableScan.t * option error :=
  match accessConditions with
  | [] => (NewTableScan.setRanges p fullTableRanges, None)
  | _ :: _ =>
      let p1 := NewTableScan.setAccessCondition p accessConditions in
      match newTableRangeLoop accessConditions fullRange (mkRangeBuilder None) with
      | inl e => (p1, Trace (Some e))
      | inr (rangePoints, rb) =>
          let (ranges, rb') := buildTableRanges m rangePoints rb in
          (NewTableScan.setRanges p1 ranges, Trace (err rb'))
      end
  end.

(** ** The plan tree *)

Inductive PlanNode : Type :=
| PIndexScan (x : IndexScan.t)
| PLimit (x : Limit.t)
| PTableScan (x : TableScan.t)
| PNewTableScan (x : NewTableScan.t)
| PSelection (x : Selection.t)
| POther (kind : string).

(** A plan: the node's own fields and the children of its [basePlan]. *)
Inductive Plan : Type :=
| Node (x : PlanNode) (children : list Plan).

Definition GetChildren (p : Plan) : list Plan :=
  match p with
  | Node _ cs => cs
  end.

Definition nodeOf (p : Plan) : PlanNode :=
  match p with
  | Node x _ => x
  end.

(** Modelled from the spec: [GetChildByIndex] is declared with the plan
    nodes, outside this file; a selection with no child sits above no
    scan, so the lookup yields nil there. *)
Definition GetChildByIndex (children : list Plan) (i : Z) : option Plan :=
  index children i.

(** [buildSelection]: the selection's fields, and its children with the
    first one, the scan the Go code mutates through its pointer, written
    back in its place. *)
Definition buildSelection (p : Selection.t) (children : list Plan)
  : result (Selection.t * list Plan * option error) :=
  match GetChildByIndex children 0 with
  | Some (Node (PNewTableScan tableScan) grand) =>
      match detachConditions (Selection.Conditions p) (NewTableScan.Table tableScan) None 0 with
      | Panic => Panic
      | Ok (accessConditions, filterConditions) =>
          let (tableScan', e) := buildNewTableRange tableScan accessConditions in
          Ok (Selection.mk filterConditions,
              Node (PNewTableScan tableScan') grand :: tl children,
              Trace e)
      end
  | _ => Ok (p, children, Trace None)
  end.

(** The type switch of [refine], run once the children are done. *)
Definition refineNode (x : PlanNode) (children : list Plan)
  : result (Plan * option error) :=
  match x with
  | PIndexScan p =>
      match buildIndexRange p with
      | Panic => Panic
      | Ok (p', e) => Ok (Node (PIndexScan p') children, Trace e)
      end
  | PLimit p => Ok (Node (PLimit (Limit.SetLimit p 0)) children, Trace None)
  | PTableScan p =>
      let (p', e) := buildTableRange p in
      Ok (Node (PTableScan p') children, Trace e)
  | PNewTableScan p =>
      Ok (Node (PNewTableScan (NewTableScan.setRanges p fullTableRanges)) children,
          Trace None)
  | PSelection p =>
      match buildSelection p children with
      | Panic => Panic
      | Ok (p', children', e) => Ok (Node (PSelection p') children', Trace e)
      end
  | POther _ => Ok (Node x children, Trace None)
  end.

(** The loop of [refine] over the children: the first child that returns
    an error ends the loop, and the children after it are not visited. *)
Definition refineChildren (rec : Plan -> result (Plan * option error))
  : list Plan -> result (list Plan * option error) :=
  fix go (cs : list Plan) : result (list Plan * option error) :=
    match cs with
    | [] => Ok ([], None)
    | c :: rest =>
        match rec c with
        | Panic => Panic
        | Ok (c', Some e) => Ok (c' :: rest, Trace (Some e))
        | Ok (c', None) =>
            match go rest with
            | Panic => Panic
            | Ok (rest', e) => Ok (c' :: rest', e)
            end
        end
    end.

Fixpoint refine (p : Plan) : result (Plan * option error) :=
  match p with
  | Node x children =>
      match refineChildren refine children with
      | Panic => Panic
      | Ok (children', Some e) => Ok (Node x children', Some e)
      | Ok (children', None) => refineNode x children'
      end
  end.

Definition Refine (p : Plan) : result (Plan * option error) := refine p.

(** ** The index-scan ranges, as the design describes them *)

(** One more equality condition: its points, appended to the ranges. *)
Definition appendStep (acc : list IndexRange * rangeBuilder) (cond : ExprNode)
  : list IndexRange * rangeBuilder :=
  let (ranges, rb) := acc in
  let (point, rb1) := build m cond rb in
  appendIndexRanges m ranges point rb1.

(** One more range condition: its points, intersected with the points so
    far. *)
Definition intersectStep (acc : list rangePoint * rangeBuilder) (cond : ExprNode)
  : list rangePoint * rangeBuilder :=
  let (rangePoints, rb) := acc in
  let (point, rb1) := build m cond rb in
  intersection m rangePoints point rb1.

(** The equality prefix: the points of the first condition turned into
    index ranges, then the points of each further condition appended in
    order.  With no condition in the prefix the ranges are left as they
    were. *)
Definition equalityRanges (conds : list ExprNode) (before : list IndexRange)
  (rb : rangeBuilder) : list IndexRange * rangeBuilder :=
  match conds with
  | [] => (before, rb)
  | c0 :: rest =>
      let (point, rb1) := build m c0 rb in
      fold_left appendStep rest (buildIndexRanges m point rb1)
  end.

(** The ranges of an index scan with [k] leading equality conditions out
    of [n]: the equality prefix over the first [k], the intersection of
    the remaining ones starting from the full range, and then: for
    [k = 0] the intersected points become the ranges, for [0 < k < n] they
    are appended to the prefix ranges, and otherwise the prefix ranges
    stand as they are. *)
Definition indexRangesSpec (p : IndexScan.t) (rb : rangeBuilder)
  : list IndexRange * rangeBuilder :=
  let conds := IndexScan.AccessConditions p in
  let k := Z.to_nat (IndexScan.AccessEqualCount p) in
  let (ranges, rb1) := equalityRanges (firstn k conds) (IndexScan.Ranges p) rb in
  let (rangePoints, rb2) := fold_left intersectStep (skipn k conds) (fullRange, rb1) in
  if Nat.eqb k 0 then buildIndexRanges m rangePoints rb2
  else if Nat.ltb k (List.length conds) then appendIndexRanges m ranges rangePoints rb2
  else (ranges, rb2).

(** The points of a list of new-form conditions: each one built and
    intersected in order, starting from the full range. *)
Fixpoint intersectAll (conds : list Expression) (rangePoints : list rangePoint)
  (rb : rangeBuilder) : list rangePoint * rangeBuilder :=
  match conds with
  | [] => (rangePoints, rb)
  | cond :: rest =>
      let (point, rb1) := newBuild m cond rb in
      let (rangePoints', rb2) := intersection m rangePoints point rb1 in
      intersectAll rest rangePoints' rb2
  end.

End Builder.

(** ** Targets of classification *)

(** What a checker classifies against: the primary-key column, or the
    column of an index at an offset. *)
Inductive Target : Type :=
| PrimaryKey (pk : model.CIStr)
| IndexedColumn (ix : model.IndexInfo) (offset : Z).

(** The target a checker is set up for; the primary key wins when both
    are given, and a checker with neither has no target. *)
Definition targetOf (c : conditionChecker) : option Target :=
  if negb (model.L (pkName c) =? EmptyString)%string then Some (PrimaryKey (pkName c))
  else
    match idx c with
    | Some ix => Some (IndexedColumn ix (columnOffset c))
    | None => None
    end.

(** A primary-key target has a name; an indexed-column target has its
    offset inside the index. *)
Definition validTarget (t : Target) : bool :=
  match t with
  | PrimaryKey pk => negb (model.L pk =? EmptyString)%string
  | IndexedColumn ix off => (0 <=? off) && (off <? len (model.IdxColumns ix))
  end.

(** "Refers to the target column": the table name matches, and the column
    is the primary key, or the index's column at the offset. *)
Definition refersTo (table : model.CIStr) (t : Target) (tbl col : model.CIStr) : bool :=
  (model.L tbl =? model.L table)%string &&
  match t with
  | PrimaryKey pk => (model.L pk =? model.L col)%string
  | IndexedColumn ix off =>
      match index (model.IdxColumns ix) off with
      | Some ic => (model.L col =? model.L (model.IdxColName ic))%string
      | None => false
      end
  end.

(** A plain reference to the target column, in each form. *)
Definition isTargetColumnExpr (table : model.CIStr) (t : Target) (e : ExprNode) : bool :=
  match e with
  | ColumnNameExpr cn => refersTo table t (TableName cn) (ColumnName cn)
  | _ => false
  end.

Definition isTargetColumn (table : model.CIStr) (t : Target) (e : Expression) : bool :=
  match e with
  | Column tbl col => refersTo table t tbl col
  | _ => false
  end.

(** The rule for comparisons, in words: exactly one side is a literal and
    the other side is a plain reference to the target column. *)
Definition comparisonAccessible {A : Type} (literal target : A -> bool) (l r : A) : bool :=
  (literal l && negb (literal r) && target r)
  || (literal r && negb (literal l) && target l).

Definition isComparison (op : opcode.Op) : bool :=
  match op with
  | opcode.EQ | opcode.NE | opcode.GE | opcode.GT | opcode.LE | opcode.LT => true
  | _ => false
  end.

(** ** The two forms of one predicate *)

(** A function name as the scalar-function form carries it. *)
Definition funcName (n : string) : model.CIStr := model.mkCIStr n n.

Definition opFuncName (op : opcode.Op) : option string :=
  match op with
  | opcode.AndAnd => Some ast.AndAnd
  | opcode.OrOr => Some ast.OrOr
  | opcode.EQ => Some ast.EQ
  | opcode.NE => Some ast.NE
  | opcode.GE => Some ast.GE
  | opcode.GT => Some ast.GT
  | opcode.LE => Some ast.LE
  | opcode.LT => Some ast.LT
  | _ => None
  end.

Definition notOf (e : Expression) : Expression :=
  ScalarFunction (funcName ast.UnaryNot) [e].

Definition negated (not : bool) (e : Expression) : Expression :=
  if not then notOf e else e.

(** The scalar-function form of a tree-form predicate, for the shapes that
    exist in both forms: literals, columns, the logical and comparison
    operators, IS [NOT] NULL, IS [NOT] TRUE/FALSE, NOT, and parentheses
    (which leave no trace in the new form).  BETWEEN, IN and LIKE have no
    scalar-function form yet. *)
Fixpoint toExpression (e : ExprNode) : option Expression :=
  match e with
  | ValueExpr v => Some (Constant v)
  | ColumnNameExpr cn => Some (Column (TableName cn) (ColumnName cn))
  | BinaryOperationExpr op l r =>
      match opFuncName op, toExpression l, toExpression r with
      | Some n, Some l', Some r' => Some (ScalarFunction (funcName n) [l'; r'])
      | _, _, _ => None
      end
  | IsNullExpr x not =>
      match toExpression x with
      | Some x' => Some (negated not (ScalarFunction (funcName ast.IsNull) [x']))
      | None => None
      end
  | IsTruthExpr x not tr =>
      match toExpression x with
      | Some x' =>
          Some (negated not
                  (ScalarFunction
                     (funcName (if tr =? 0 then ast.IsFalsity else ast.IsTruth)) [x']))
      | None => None
      end
  | ParenthesesExpr x => toExpression x
  | UnaryOperationExpr opcode.Not x =>
      match toExpression x with
      | Some x' => Some (notOf x')
      | None => None
      end
  | _ => None
  end.



(** ** Well-formed scalar functions *)

(** Every scalar function the classifier knows has the arguments it reads:
    two for the logical and comparison operators, one for the IS tests and
    for NOT. *)
Fixpoint arityOk (e : Expression) : bool :=
  match e with
  | ScalarFunction name args =>
      let n := model.L name in
      (if isLogicName n || isCompareName n then 2 <=? len args
       else if isTruthName n || (n =? ast.UnaryNot)%string then 1 <=? len args
       else true)
      && forallb arityOk args
  | _ => true
  end.

(** ** LIKE wildcards *)

(** The two wildcards of a LIKE pattern: any run of characters, and any
    one character. *)
Definition isWildcard (a : ascii) : bool :=
  Ascii.eqb a "%" || Ascii.eqb a "_".

(** ** A literal-only instance of the ast capabilities *)

Module Lit.

(** Modelled from the spec: [ast.IsPreEvaluable] is not in this file; the
    spec describes it as the test for a compile-time literal. *)
Definition IsPreEvaluable (e : ExprNode) : bool :=
  match e with
  | ValueExpr _ => true
  | _ => false
  end.

(** Modelled from the spec: [GetValue] is not in this file; it extracts
    the value of a literal, and is nil on a node that was not evaluated. *)
Definition GetValue (e : ExprNode) : types.Datum :=
  match e with
  | ValueExpr v => v
  | _ => types.Null
  end.

(** Modelled from the spec: [types.ToString] is not in this file; strings
    and byte strings convert to themselves, integers to their decimal
    form, and the rest is an error. *)
Definition ToString (d : types.Datum) : option string :=
  match d with
  | types.Str s => Some s
  | types.Bytes b => Some b
  | types.Int64 i => Some (DecimalString.NilZero.string_of_int (Z.to_int i))
  | types.Uint64 u => Some (DecimalString.NilZero.string_of_int (Z.to_int u))
  | _ => None
  end.

Definition ops : nodeOps := mkNodeOps IsPreEvaluable GetValue ToString.

End Lit.

(** ** Post-order *)

(** The nodes of a plan, children before their parent. *)
Fixpoint postorder (p : Plan) : list PlanNode :=
  match p with
  | Node x children => flat_map postorder children ++ [x]
  end.

(** [k] nested [errors.Trace] wrappers around an error. *)
Fixpoint traces (k : nat) (e : error) : error :=
  match k with
  | O => e
  | S k' => Traced (traces k' e)
  end.

(** ** A small range builder *)

Module Sample.

Definition unsupported : rangeBuilder :=
  mkRangeBuilder (Some (errorString "unsupported predicate shape")).

Definition point (v : types.Datum) : list rangePoint :=
  [ mkPoint v false true; mkPoint v false false ].

Definition sameInt (a b : types.Datum) : bool :=
  match a, b with
  | types.Int64 x, types.Int64 y => x =? y
  | _, _ => false
  end.

Definition isFull (pts : list rangePoint) : bool :=
  match pts with
  | [ lo; hi ] =>
      types.isNil (value lo) && start lo
      && match value hi with types.MaxValue => true | _ => false end
  | _ => false
  end.

(** Modelled from the spec: the builder's methods are not in this file.
    This instance covers what the spec says of equality and of literals:
    [col = v] gives the point interval at [v], a bare literal the full
    range, any other shape the unsupported-shape error. *)
Definition build (cond : ExprNode) (rb : rangeBuilder) : list rangePoint * rangeBuilder :=
  match cond with
  | BinaryOperationExpr opcode.EQ (ColumnNameExpr _) (ValueExpr v) => (point v, rb)
  | BinaryOperationExpr opcode.EQ (ValueExpr v) (ColumnNameExpr _) => (point v, rb)
  | ValueExpr _ => (fullRange, rb)
  | _ => ([], unsupported)
  end.

Definition newBuild (cond : Expression) (rb : rangeBuilder)
  : list rangePoint * rangeBuilder :=
  match cond with
  | ScalarFunction name [ Column _ _; Constant v ] =>
      if (model.L name =? ast.EQ)%string then (point v, rb) else ([], unsupported)
  | ScalarFunction name [ Constant v; Column _ _ ] =>
      if (model.L name =? ast.EQ)%string then (point v, rb) else ([], unsupported)
  | Constant _ => (fullRange, rb)
  | _ => ([], unsupported)
  end.

(** Modelled from the spec: intersection of interval unions, here for the
    full range and integer point intervals only: the full range is
    neutral, a point meets itself, and two different points meet in
    nothing. *)
Definition intersection (a b : list rangePoint) (rb : rangeBuilder)
  : list rangePoint * rangeBuilder :=
  if isFull a then (b, rb)
  else if isFull b then (a, rb)
  else
    match a, b with
    | [ la; _ ], [ lb; _ ] => if sameInt (value la) (value lb) then (a, rb) else ([], rb)
    | _, _ => ([], rb)
    end.

Definition handle (d : types.Datum) : option Z :=
  match d with
  | types.Null => Some MinInt64
  | types.MaxValue => Some MaxInt64
  | types.Int64 i => Some i
  | _ => None
  end.

(** Modelled from the spec: the points read pairwise into integer ranges,
    the sentinels becoming the least and greatest handle. *)
Fixpoint buildTableRanges (pts : list rangePoint) (rb : rangeBuilder)
  : list TableRange * rangeBuilder :=
  match pts with
  | lo :: hi :: rest =>
      match handle (value lo), handle (value hi) with
      | Some l, Some h =>
          let (ranges, rb') := buildTableRanges rest rb in
          (mkTableRange l h :: ranges, rb')
      | _, _ => ([], mkRangeBuilder (Some (errorString "not an integer bound")))
      end
  | _ => ([], rb)
  end.

(** Modelled from the spec: the points read pairwise into one-column index
    ranges that keep the exclusive flags. *)
Fixpoint buildIndexRanges (pts : list rangePoint) (rb : rangeBuilder)
  : list IndexRange * rangeBuilder :=
  match pts with
  | lo :: hi :: rest =>
      let (ranges, rb') := buildIndexRanges rest rb in
      (mkIndexRange [value lo] (excl lo) [value hi] (excl hi) :: ranges, rb')
  | _ => ([], rb)
  end.

Fixpoint extend (r : IndexRange) (pts : list rangePoint) : list IndexRange :=
  match pts with
  | lo :: hi :: rest =>
      mkIndexRange (IdxLowVal r ++ [value lo]) (excl lo)
                   (IdxHighVal r ++ [value hi]) (excl hi)
      :: extend r rest
  | _ => []
  end.

(** Modelled from the spec: every existing range extended by every
    interval of the new points. *)
Definition appendIndexRanges (ranges : list IndexRange) (pts : list rangePoint)
  (rb : rangeBuilder) : list IndexRange * rangeBuilder :=
  (flat_map (fun r => extend r pts) ranges, rb).

Definition ops : builderOps :=
  mkBuilderOps build newBuild intersection buildIndexRanges appendIndexRanges
    buildTableRanges.

(** A table [t] whose handle is the primary-key column [id], next to a
    column [name]. *)
Definition ci (s : string) : model.CIStr := model.mkCIStr s s.

Definition table : model.TableInfo :=
  model.mkTableInfo (ci "t")
    [ model.mkColumnInfo (ci "name") 0; model.mkColumnInfo (ci "id") 3 ] true.

Definition pkChecker : conditionChecker := mkChecker (ci "t") None 0 (ci "id").

Definition idExpr : ExprNode := ColumnNameExpr (mkResultField (ci "t") (ci "id")).
Definition nameExpr : ExprNode := ColumnNameExpr (mkResultField (ci "t") (ci "name")).
Definition intExpr (i : Z) : ExprNode := ValueExpr (types.Int64 i).
Definition strExpr (s : string) : ExprNode := ValueExpr (types.Str s).

Definition idCol : Expression := Column (ci "t") (ci "id").
Definition nameCol : Expression := Column (ci "t") (ci "name").
Definition intConst (i : Z) : Expression := Constant (types.Int64 i).

(** [id = i] in each form. *)
Definition idEqExpr (i : Z) : ExprNode :=
  BinaryOperationExpr opcode.EQ idExpr (intExpr i).
Definition idEq (i : Z) : Expression :=
  ScalarFunction (funcName ast.EQ) [ idCol; intConst i ].

(** [id LIKE pattern]. *)
Definition idLike (pattern : string) : ExprNode :=
  PatternLikeExpr idExpr (strExpr pattern) false (ascii_of_nat 92).

End Sample.

(** ** What the splitter keeps *)

(** The decision of [detachConditions] on one condition: a primary key
    was found and [newCheck] against it returned true. *)
Definition keeps (table : model.TableInfo) (ix : option model.IndexInfo)
  (colOffset : Z) (con : Expression) : bool :=
  let pk := detachPkName table in
  negb (model.L pk =? EmptyString)%string &&
  match newCheck (mkChecker (model.TblName table) ix colOffset pk) con with
  | Ok true => true
  | _ => false
  end.

(** A checker whose column test cannot index outside the index. *)
Definition columnTestTotal (c : conditionChecker) : Prop :=
  forall tbl col, exists b, checkName c tbl col = Ok b.

(** The schema has no primary-key column to split against. *)
Definition noPrimaryKey (table : model.TableInfo) : Prop :=
  model.PKIsHandle table = false
  \/ Forall (fun colInfo => mysql.HasPriKeyFlag (model.Flag colInfo) = false)
       (model.Columns table).

(** ** Columns of a scalar-function predicate *)

(** Every scalar function the classifier knows has exactly the arguments
    it reads. *)
Fixpoint arityExact (e : Expression) : bool :=
  match e with
  | ScalarFunction name args =>
      let n := model.L name in
      (if isLogicName n || isCompareName n then len args =? 2
       else if isTruthName n || (n =? ast.UnaryNot)%string then len args =? 1
       else true)
      && forallb arityExact args
  | _ => true
  end.

(** The column references of an expression, as (table, column) pairs. *)
Fixpoint columnsOf (e : Expression) : list (model.CIStr * model.CIStr) :=
  match e with
  | ScalarFunction _ args => flat_map columnsOf args
  | Column tbl col => [(tbl, col)]
  | Constant _ => []
  end.

(** ** LIKE patterns with a first byte *)

(** No LIKE that [check] can reach in [e] has a pattern whose value
    converts to the empty string.  [check] descends through binary
    operations and parentheses only. *)
Fixpoint likePatternsNonEmpty (ops : nodeOps) (e : ExprNode) : bool :=
  match e with
  | BinaryOperationExpr _ l r => likePatternsNonEmpty ops l && likePatternsNonEmpty ops r
  | ParenthesesExpr x => likePatternsNonEmpty ops x
  | PatternLikeExpr _ pattern _ _ =>
      match ToString ops (GetValue ops pattern) with
      | Some EmptyString => false
      | _ => true
      end
  | _ => true
  end.

(** ** What refinement leaves alone *)

(** A node before and after a refinement that returned no error: the kind
    of the node, its table, its access conditions and its equality count
    are the same; a selection has lost conditions at most; a table scan
    without access conditions has the full range. *)
Definition refinedFrom (x x' : PlanNode) : Prop :=
  match x, x' with
  | PIndexScan a, PIndexScan b =>
      IndexScan.Table b = IndexScan.Table a
      /\ IndexScan.AccessConditions b = IndexScan.AccessConditions a
      /\ IndexScan.AccessEqualCount b = IndexScan.AccessEqualCount a
  | PLimit a, PLimit b => b = Limit.SetLimit a 0
  | PTableScan a, PTableScan b =>
      TableScan.Table b = TableScan.Table a
      /\ TableScan.AccessConditions b = TableScan.AccessConditions a
      /\ (TableScan.AccessConditions a = [] -> TableScan.Ranges b = fullTableRanges)
  | PNewTableScan a, PNewTableScan b =>
      NewTableScan.Table b = NewTableScan.Table a
  | PSelection a, PSelection b =>
      exists f, Selection.Conditions b = filter f (Selection.Conditions a)
  | POther k, POther k' => k' = k
  | _, _ => False
  end.

(** The nodes whose step in [refine] calls no range builder and reads no
    slice by index: limits, new table scans, nodes of other kinds, and
    table scans without access conditions. *)
Definition stepCannotFail (x : PlanNode) : bool :=
  match x with
  | PLimit _ | PNewTableScan _ | POther _ => true
  | PTableScan p =>
      match TableScan.AccessConditions p with
      | [] => true
      | _ :: _ => false
      end
  | PIndexScan _ | PSelection _ => false
  end.

(** * Facts about the classifier *)

Lemma checkName_refersTo (c : conditionChecker) (t : Target) (tbl col : model.CIStr) :
  targetOf c = Some t ->
  validTarget t = true ->
  checkName c tbl col = Ok (refersTo (tableName c) t tbl col).
Proof.
  unfold targetOf, checkName, refersTo.
  destruct (model.L tbl =? model.L (tableName c))%string; simpl.
  2: { intros _ _. reflexivity. }
  destruct (model.L (pkName c) =? EmptyString)%string eqn:Hpk; simpl.
  - destruct (idx c) as [ix|]; [|discriminate].
    intros [= <-]. simpl. intros Hv.
    apply andb_true_iff in Hv. destruct Hv as [Hlo Hhi].
    apply Z.leb_le in Hlo. apply Z.ltb_lt in Hhi.
    unfold index. destruct (columnOffset c <? 0) eqn:Hneg.
    + apply Z.ltb_lt in Hneg. lia.
    + destruct (nth_error (model.IdxColumns ix) (Z.to_nat (columnOffset c))) eqn:Hn.
      * reflexivity.
      * apply nth_error_None in Hn. unfold len in Hhi. lia.
  - intros [= <-]. intros _. reflexivity.
Qed.

Lemma checkColumnExpr_target (c : conditionChecker) (t : Target) (e : ExprNode) :
  targetOf c = Some t ->
  validTarget t = true ->
  checkColumnExpr c e = Ok (isTargetColumnExpr (tableName c) t e).
Proof.
  intros Ht Hv. destruct e; simpl; try reflexivity.
  apply checkName_refersTo; assumption.
Qed.

Lemma checkColumn_target (c : conditionChecker) (t : Target) (e : Expression) :
  targetOf c = Some t ->
  validTarget t = true ->
  checkColumn c e = Ok (isTargetColumn (tableName c) t e).
Proof.
  intros Ht Hv. destruct e; simpl; try reflexivity.
  apply checkName_refersTo; assumption.
Qed.

Lemma compareName_cases (n : string) :
  isCompareName n = true ->
  n = ast.EQ \/ n = ast.NE \/ n = ast.GE \/ n = ast.GT \/ n = ast.LE \/ n = ast.LT.
Proof.
  unfold isCompareName. intros H.
  repeat (apply orb_true_iff in H; destruct H as [H|H]);
    apply String.eqb_eq in H; auto 10.
Qed.

(** A comparison in the new form, once the name is known to be one of the
    six: the dispatch on the name is out of the way. *)
Lemma newCheck_comparison (c : conditionChecker) (name : model.CIStr) (l r : Expression)
  (rest : list Expression) :
  isCompareName (model.L name) = true ->
  newCheck c (ScalarFunction name (l :: r :: rest)) =
  if isConstant l then checkColumn c r
  else if isConstant r then checkColumn c l
  else Ok false.
Proof.
  intros H. destruct name as [o n]. simpl in H.
  destruct (compareName_cases n H) as [E|[E|[E|[E|[E|E]]]]]; subst n; reflexivity.
Qed.

Section ClassifierFacts.

Variable ops : nodeOps.

(** C2.  A comparison with one of the six operators is accessible exactly
    when one side is a literal, the other side is not, and that other
    side is a plain reference to the target column; this holds in both
    forms.  In particular two columns, or two literals, are never
    accessible. *)
Theorem comparison_accessible_iff
  (c : conditionChecker) (t : Target)
  (Htarget : targetOf c = Some t)
  (Hvalid : validTarget t = true)
  (Hcolumn : forall cn, IsPreEvaluable ops (ColumnNameExpr cn) = false) :
  (forall op l r, isComparison op = true ->
     checkBinaryOperation ops c op l r =
     Ok (comparisonAccessible (IsPreEvaluable ops)
           (isTargetColumnExpr (tableName c) t) l r))
  /\ (forall name l r, isCompareName (model.L name) = true ->
     checkScalarFunction c name [l; r] =
     Ok (comparisonAccessible isConstant (isTargetColumn (tableName c) t) l r))
  /\ (forall op a b, isComparison op = true ->
     check ops c (BinaryOperationExpr op (ColumnNameExpr a) (ColumnNameExpr b)) = Ok false)
  /\ (forall op l r, isComparison op = true ->
     IsPreEvaluable ops l = true -> IsPreEvaluable ops r = true ->
     check ops c (BinaryOperationExpr op l r) = Ok false)
  /\ (forall name ta ca tb cb, isCompareName (model.L name) = true ->
     newCheck c (ScalarFunction name [Column ta ca; Column tb cb]) = Ok false)
  /\ (forall name u v, isCompareName (model.L name) = true ->
     newCheck c (ScalarFunction name [Constant u; Constant v]) = Ok false).
Proof.
  assert (Hold : forall op l r, isComparison op = true ->
     check ops c (BinaryOperationExpr op l r) =
     Ok (comparisonAccessible (IsPreEvaluable ops)
           (isTargetColumnExpr (tableName c) t) l r)).
  { intros op l r Hop.
    assert (E : check ops c (BinaryOperationExpr op l r) = checkComparison ops c l r)
      by (destruct op; try discriminate Hop; reflexivity).
    rewrite E. unfold checkComparison, comparisonAccessible.
    rewrite !(checkColumnExpr_target c t) by assumption.
    destruct (IsPreEvaluable ops l) eqn:Hl; simpl.
    - destruct r; simpl; rewrite ?andb_false_r; try reflexivity.
      rewrite Hcolumn. simpl. rewrite orb_false_r. reflexivity.
    - destruct (IsPreEvaluable ops r) eqn:Hr; reflexivity. }
  assert (Hnew : forall name l r, isCompareName (model.L name) = true ->
     newCheck c (ScalarFunction name [l; r]) =
     Ok (comparisonAccessible isConstant (isTargetColumn (tableName c) t) l r)).
  { intros name l r Hn. rewrite newCheck_comparison by assumption.
    unfold comparisonAccessible.
    rewrite !(checkColumn_target c t) by assumption.
    destruct l, r; simpl; rewrite ?andb_false_r, ?orb_false_r; reflexivity. }
  split; [exact Hold|]. split; [exact Hnew|].
  split; [|split; [|split]].
  - intros op a b Hop. rewrite Hold by assumption.
    unfold comparisonAccessible. rewrite !Hcolumn. reflexivity.
  - intros op l r Hop Hl Hr. rewrite Hold by assumption.
    unfold comparisonAccessible. rewrite Hl, Hr. reflexivity.
  - intros name ta ca tb cb Hn. rewrite Hnew by assumption. reflexivity.
  - intros name u v Hn. rewrite Hnew by assumption. reflexivity.
Qed.

(** C6, as the code has it.  In the tree form a unary operation at the
    top, NOT included, is never accessible.  In the scalar-function form a
    NOT at the top is classified as its operand is. *)
Theorem negation_classification :
  (forall c op e, check ops c (UnaryOperationExpr op e) = Ok false)
  /\ (forall c o e rest,
        newCheck c (ScalarFunction (model.mkCIStr o ast.UnaryNot) (e :: rest)) =
        newCheck c e).
Proof.
  split.
  - intros c op e. reflexivity.
  - intros c o e rest. reflexivity.
Qed.

(** What [check] does on a LIKE, case by case. *)
Lemma check_like (c : conditionChecker) (e pattern : ExprNode) (esc : ascii) (s : string) :
  checkColumnExpr c e = Ok true ->
  IsPreEvaluable ops pattern = true ->
  types.isNil (GetValue ops pattern) = false ->
  ToString ops (GetValue ops pattern) = Some s ->
  check ops c (PatternLikeExpr e pattern false esc) =
  match s with
  | EmptyString => Panic
  | String a _ => Ok (negb (Ascii.eqb a "%") && negb (Ascii.eqb a "."))
  end.
Proof.
  intros He Hp Hnil Hs. simpl. unfold checkPatternLike.
  rewrite He, Hp, Hnil, Hs. reflexivity.
Qed.

(** C10, where the code breaks it.  A LIKE on the target column whose
    pattern is a literal that converts to the empty string makes [check]
    index the first byte of an empty string: the call panics instead of
    returning a boolean. *)
Theorem like_empty_pattern_panics
  (c : conditionChecker) (e pattern : ExprNode) (esc : ascii)
  (Hcol : checkColumnExpr c e = Ok true)
  (Hpre : IsPreEvaluable ops pattern = true)
  (Hval : types.isNil (GetValue ops pattern) = false)
  (Hstr : ToString ops (GetValue ops pattern) = Some EmptyString) :
  check ops c (PatternLikeExpr e pattern false esc) = Panic.
Proof.
  rewrite (check_like c e pattern esc EmptyString) by assumption. reflexivity.
Qed.

End ClassifierFacts.

(** ** The two forms side by side *)










(** C6 fails in the scalar-function form: [NOT (id = 1)] has a negation
    at the top and is classified accessible. *)
Lemma negation_accepted :
  toExpression (UnaryOperationExpr opcode.Not (Sample.idEqExpr 1))
  = Some (notOf (Sample.idEq 1))
  /\ newCheck Sample.pkChecker (notOf (Sample.idEq 1)) = Ok true
  /\ newCheck Sample.pkChecker (notOf (Sample.idEq 1)) <> Ok false.
Proof.
  repeat split; try reflexivity. discriminate.
Qed.

(** C2 at the primary key [id] of table [t]. *)
Lemma comparison_accessible_iff_witness :
  check Lit.ops Sample.pkChecker (Sample.idEqExpr 5) = Ok true
  /\ newCheck Sample.pkChecker (Sample.idEq 5) = Ok true
  /\ check Lit.ops Sample.pkChecker
       (BinaryOperationExpr opcode.LT Sample.idExpr Sample.nameExpr) = Ok false.
Proof.
  destruct (comparison_accessible_iff Lit.ops Sample.pkChecker
              (PrimaryKey (Sample.ci "id")) eq_refl eq_refl (fun cn => eq_refl))
    as [Hold [Hnew [Hcols _]]].
  split; [|split].
  - exact (Hold opcode.EQ Sample.idExpr (Sample.intExpr 5) eq_refl).
  - exact (Hnew (funcName ast.EQ) Sample.idCol (Sample.intConst 5) eq_refl).
  - apply Hcols. reflexivity.
Defined.

(** C10 at [id LIKE ''] on the primary key [id]. *)
Lemma like_empty_pattern_panics_witness :
  check Lit.ops Sample.pkChecker (Sample.idLike EmptyString) = Panic.
Proof.
  apply (like_empty_pattern_panics Lit.ops); reflexivity.
Defined.

(** C7, where the code breaks it.  The first byte of the pattern is tested
    against ['%'] and ['.'], and ['.'] is no LIKE wildcard while ['_'] is
    one: a pattern that starts with the one-character wildcard is
    accepted, a pattern that starts with a dot is rejected, and the empty
    pattern has no first byte to test. *)
Theorem like_first_character_divergence :
  (isWildcard "_" = true
   /\ check Lit.ops Sample.pkChecker (Sample.idLike "_bc") = Ok true)
  /\ (isWildcard "." = false
      /\ check Lit.ops Sample.pkChecker (Sample.idLike ".bc") = Ok false)
  /\ check Lit.ops Sample.pkChecker (Sample.idLike EmptyString) = Panic.
Proof.
  repeat split.
Qed.

(** * Facts about the splitter *)

(** Induction over expressions that reaches the arguments of a scalar
    function. *)
Lemma Expression_args_ind (P : Expression -> Prop) :
  (forall name args, Forall P args -> P (ScalarFunction name args)) ->
  (forall tbl col, P (Column tbl col)) ->
  (forall v, P (Constant v)) ->
  forall e, P e.
Proof.
  intros Hfun Hcol Hconst.
  fix IH 1. intros [name args|tbl col|v].
  - apply Hfun.
    refine ((fix go (l : list Expression) : Forall P l :=
               match l with
               | [] => Forall_nil P
               | x :: rest => Forall_cons x (IH x) (go rest)
               end) args).
  - apply Hcol.
  - apply Hconst.
Qed.

Lemma primaryKey_columnTestTotal (c : conditionChecker) :
  negb (model.L (pkName c) =? EmptyString)%string = true ->
  columnTestTotal c.
Proof.
  intros Hpk tbl col. unfold checkName. rewrite Hpk.
  destruct (negb (model.L tbl =? model.L (tableName c))%string); eauto.
Qed.

Lemma checkColumn_total (c : conditionChecker) (e : Expression) :
  columnTestTotal c -> exists b, checkColumn c e = Ok b.
Proof.
  intros Hc. destruct e; simpl; eauto.
Qed.

(** On scalar functions that have the arguments they need, [newCheck]
    returns a boolean. *)
Lemma newCheck_total (c : conditionChecker) (e : Expression) :
  columnTestTotal c ->
  arityOk e = true ->
  exists b, newCheck c e = Ok b.
Proof.
  intros Hc. induction e as [name args IH|tbl col|v] using Expression_args_ind;
    intros Hwf.
  - simpl in Hwf. apply andb_true_iff in Hwf. destruct Hwf as [Har Hargs].
    simpl.
    destruct (isLogicName (model.L name)) eqn:Hlogic.
    + simpl in Har.
      destruct args as [|a0 [|a1 rest]]; try discriminate Har.
      inversion IH as [|? ? IH0 IHrest]; subst.
      inversion IHrest as [|? ? IH1 _]; subst.
      simpl in Hargs.
      apply andb_true_iff in Hargs. destruct Hargs as [H0 Hargs].
      apply andb_true_iff in Hargs. destruct Hargs as [H1 _].
      destruct (IH0 H0) as [b0 E0]. destruct (IH1 H1) as [b1 E1].
      rewrite E0, E1. destruct b0; simpl; eauto.
    + destruct (isCompareName (model.L name)) eqn:Hcmp.
      * simpl in Har.
        destruct args as [|a0 [|a1 rest]]; try discriminate Har.
        destruct (isConstant a0); [apply checkColumn_total; assumption|].
        destruct (isConstant a1); [apply checkColumn_total; assumption|].
        eauto.
      * simpl in Har.
        destruct (isTruthName (model.L name)) eqn:Htruth.
        -- simpl in Har. destruct args as [|a0 rest]; try discriminate Har.
           apply checkColumn_total; assumption.
        -- destruct (model.L name =? ast.UnaryNot)%string eqn:Hnot.
           ++ simpl in Har. destruct args as [|a0 rest]; try discriminate Har.
              inversion IH as [|? ? IH0 _]; subst.
              simpl in Hargs. apply andb_true_iff in Hargs.
              destruct Hargs as [H0 _]. exact (IH0 H0).
           ++ eauto.
  - apply checkColumn_total; assumption.
  - simpl. eauto.
Qed.

Lemma findPriKey_none (cols : list model.ColumnInfo) :
  Forall (fun colInfo => mysql.HasPriKeyFlag (model.Flag colInfo) = false) cols ->
  findPriKey cols = emptyCIStr.
Proof.
  induction 1 as [|colInfo rest Hflag _ IH]; simpl.
  - reflexivity.
  - rewrite Hflag. exact IH.
Qed.

Lemma noPrimaryKey_name (table : model.TableInfo) :
  noPrimaryKey table -> detachPkName table = emptyCIStr.
Proof.
  unfold detachPkName. intros [Hhandle|Hflags].
  - rewrite Hhandle. reflexivity.
  - rewrite findPriKey_none by assumption. destruct (model.PKIsHandle table); reflexivity.
Qed.

(** The loop of the splitter is a pair of filters that append to what was
    collected so far. *)
Lemma detachLoop_filter (table : model.TableInfo) (ix : option model.IndexInfo)
  (colOffset : Z) (conditions accessConditions filterConditions : list Expression) :
  (negb (model.L (detachPkName table) =? EmptyString)%string = true ->
   Forall (fun con => arityOk con = true) conditions) ->
  detachLoop (detachPkName table) table ix colOffset conditions
    accessConditions filterConditions =
  Ok (accessConditions ++ filter (keeps table ix colOffset) conditions,
      filterConditions
      ++ filter (fun con => negb (keeps table ix colOffset con)) conditions).
Proof.
  revert accessConditions filterConditions.
  induction conditions as [|con rest IH]; intros acc filt Hwf; simpl.
  - rewrite !app_nil_r. reflexivity.
  - destruct (negb (model.L (detachPkName table) =? EmptyString)%string) eqn:Hpk.
    + specialize (Hwf eq_refl). inversion Hwf as [|? ? Hcon Hrest]; subst.
      destruct (newCheck_total
                  (mkChecker (model.TblName table) ix colOffset (detachPkName table))
                  con
                  (primaryKey_columnTestTotal
                     (mkChecker (model.TblName table) ix colOffset (detachPkName table))
                     Hpk)
                  Hcon) as [b Hb].
      assert (Hk : keeps table ix colOffset con = b)
        by (unfold keeps; rewrite Hpk, Hb; destruct b; reflexivity).
      rewrite Hb, Hk.
      destruct b; simpl; rewrite IH by (intros _; assumption);
        rewrite <- app_assoc; reflexivity.
    + assert (Hk : keeps table ix colOffset con = false)
        by (unfold keeps; rewrite Hpk; reflexivity).
      rewrite Hk. simpl.
      rewrite IH by (intros Hcontra; discriminate Hcontra).
      rewrite <- app_assoc. reflexivity.
Qed.

Lemma filter_split_permutation {A : Type} (f : A -> bool) (l : list A) :
  Permutation (filter f l ++ filter (fun x => negb (f x)) l) l.
Proof.
  induction l as [|a l IH]; simpl.
  - constructor.
  - destruct (f a); simpl.
    + constructor. exact IH.
    + apply Permutation_sym, Permutation_cons_app, Permutation_sym, IH.
Qed.

Lemma filter_none {A : Type} (f : A -> bool) (l : list A) :
  (forall x, f x = false) ->
  filter f l = [] /\ filter (fun x => negb (f x)) l = l.
Proof.
  intros Hf. induction l as [|a l [IH1 IH2]]; simpl.
  - split; reflexivity.
  - rewrite Hf. simpl. rewrite IH1, IH2. split; reflexivity.
Qed.

(** On well-formed conditions the splitter returns the conditions it
    keeps and the ones it does not, as two filters of its input. *)
Lemma detachConditions_filter
  (conditions : list Expression) (table : model.TableInfo)
  (ix : option model.IndexInfo) (colOffset : Z) :
  Forall (fun con => arityOk con = true) conditions ->
  detachConditions conditions table ix colOffset
  = Ok (filter (keeps table ix colOffset) conditions,
        filter (fun con => negb (keeps table ix colOffset con)) conditions).
Proof.
  intros Hwf. unfold detachConditions.
  rewrite detachLoop_filter by (intros _; exact Hwf). reflexivity.
Qed.

(** Without a primary-key column the splitter keeps nothing, whatever the
    conditions are. *)
Lemma detachConditions_noPrimaryKey
  (conditions : list Expression) (table : model.TableInfo)
  (ix : option model.IndexInfo) (colOffset : Z) :
  noPrimaryKey table ->
  detachConditions conditions table ix colOffset = Ok ([], conditions).
Proof.
  intros Hno. unfold detachConditions.
  rewrite detachLoop_filter.
  - destruct (filter_none (keeps table ix colOffset) conditions) as [E1 E2].
    + intros con. unfold keeps. rewrite (noPrimaryKey_name table Hno). reflexivity.
    + rewrite E1, E2. reflexivity.
  - rewrite (noPrimaryKey_name table Hno). intros Hcontra. discriminate Hcontra.
Qed.

(** C4.  On well-formed conditions the splitter returns two lists: the
    conditions it keeps as access conditions and the ones it does not,
    each in input order, so that every condition of the input lands in
    exactly one of them and none is repeated or lost.  Without a
    primary-key column ([PKIsHandle] false, or no column with the
    primary-key flag) nothing is kept and the residual list is the input,
    for any conditions. *)
Theorem detachConditions_partition
  (conditions : list Expression) (table : model.TableInfo)
  (ix : option model.IndexInfo) (colOffset : Z) :
  (Forall (fun con => arityOk con = true) conditions ->
   exists accessConditions filterConditions,
     detachConditions conditions table ix colOffset
     = Ok (accessConditions, filterConditions)
     /\ accessConditions = filter (keeps table ix colOffset) conditions
     /\ filterConditions
        = filter (fun con => negb (keeps table ix colOffset con)) conditions
     /\ Permutation (accessConditions ++ filterConditions) conditions
     /\ (List.length accessConditions + List.length filterConditions
         = List.length conditions)%nat)
  /\ (noPrimaryKey table ->
      detachConditions conditions table ix colOffset = Ok ([], conditions)).
Proof.
  split.
  - intros Hwf.
    exists (filter (keeps table ix colOffset) conditions),
           (filter (fun con => negb (keeps table ix colOffset con)) conditions).
    split; [apply detachConditions_filter; exact Hwf|].
    split; [reflexivity|]. split; [reflexivity|].
    split; [apply filter_split_permutation|].
    rewrite <- length_app. apply Permutation_length, filter_split_permutation.
  - apply detachConditions_noPrimaryKey.
Qed.

(** C4 on [id = 1], [name], [3] over the table with primary key [id]. *)
Lemma detachConditions_partition_witness :
  detachConditions [Sample.idEq 1; Sample.nameCol; Sample.intConst 3] Sample.table None 0
  = Ok ([Sample.idEq 1; Sample.intConst 3], [Sample.nameCol]).
Proof.
  destruct (proj1 (detachConditions_partition
                     [Sample.idEq 1; Sample.nameCol; Sample.intConst 3]
                     Sample.table None 0))
    as [acc [filt [Hrun [Hacc [Hfilt _]]]]].
  - repeat constructor.
  - rewrite Hrun, Hacc, Hfilt. reflexivity.
Defined.

(** * Facts about the index-scan ranges *)

Lemma bind_run {A B : Type} (c : RB A) (k : A -> RB B) (rb rb' : rangeBuilder) (a : A) :
  c rb = Ok (a, rb') -> bind c k rb = k a rb'.
Proof.
  intros H. unfold bind. rewrite H. reflexivity.
Qed.

Lemma bind_lift {A B : Type} (op : rangeBuilder -> A * rangeBuilder) (k : A -> RB B)
  (rb : rangeBuilder) :
  bind (lift op) k rb = let (a, rb') := op rb in k a rb'.
Proof.
  unfold bind, lift. destruct (op rb). reflexivity.
Qed.

Lemma bind_at {A B : Type} (l : list A) (i : Z) (a : A) (k : A -> RB B)
  (rb : rangeBuilder) :
  index l i = Some a -> bind (at_ l i) k rb = k a rb.
Proof.
  intros H. unfold bind, at_. rewrite H. reflexivity.
Qed.

Lemma skipn_nth_error {A : Type} (l : list A) (i : nat) (x : A) :
  nth_error l i = Some x -> skipn i l = x :: skipn (S i) l.
Proof.
  revert i. induction l as [|a l IH]; intros [|i] H; simpl in *; try discriminate.
  - injection H as ->. reflexivity.
  - apply IH. exact H.
Qed.

(** A counted loop that reads [l[i]] at each step is a loop over the
    slice [l[i : i+n]]. *)
Lemma forLoop_forEach {A St : Type} (body : St -> A -> RB St) (l : list A)
  (n i : nat) (s : St) (rb : rangeBuilder) :
  (i + n <= List.length l)%nat ->
  forLoop (fun j acc => x <- at_ l j ;; body acc x) (Z.of_nat i) n s rb
  = forEach body (firstn n (skipn i l)) s rb.
Proof.
  revert i s rb. induction n as [|n IH]; intros i s rb Hlen.
  - reflexivity.
  - destruct (nth_error l i) as [x|] eqn:Hx.
    2: { apply nth_error_None in Hx. lia. }
    rewrite (skipn_nth_error l i x Hx). simpl.
    unfold bind at 1 2. unfold at_, index.
    destruct (Z.of_nat i <? 0) eqn:Hneg; [apply Z.ltb_lt in Hneg; lia|].
    rewrite Nat2Z.id, Hx. unfold bind at 2.
    destruct (body s x rb) as [[s' rb']|]; [|reflexivity].
    replace (Z.of_nat i + 1) with (Z.of_nat (S i)) by lia.
    apply IH. lia.
Qed.

Section IndexRangeFacts.

Variable m : builderOps.

Lemma forEach_append (l : list ExprNode) (ranges : list IndexRange) (rb : rangeBuilder) :
  forEach (appendCondition m) l ranges rb = Ok (fold_left (appendStep m) l (ranges, rb)).
Proof.
  revert ranges rb. induction l as [|c l IH]; intros ranges rb; simpl.
  - reflexivity.
  - unfold bind, appendCondition, lift, bind.
    destruct (build m c rb) as [point rb1].
    destruct (appendIndexRanges m ranges point rb1) as [ranges' rb2].
    apply IH.
Qed.

Lemma forEach_intersect (l : list ExprNode) (pts : list rangePoint) (rb : rangeBuilder) :
  forEach (intersectCondition m) l pts rb = Ok (fold_left (intersectStep m) l (pts, rb)).
Proof.
  revert pts rb. induction l as [|c l IH]; intros pts rb; simpl.
  - reflexivity.
  - unfold bind, intersectCondition, lift, bind.
    destruct (build m c rb) as [point rb1].
    destruct (intersection m pts point rb1) as [pts' rb2].
    apply IH.
Qed.

(** The steps of [buildIndexRange] compute the ranges of the design, for
    an equality count between zero and the number of conditions. *)
Lemma indexRangeSteps_spec (p : IndexScan.t) (rb : rangeBuilder) :
  0 <= IndexScan.AccessEqualCount p <= len (IndexScan.AccessConditions p) ->
  indexRangeSteps m p rb = Ok (indexRangesSpec m p rb).
Proof.
  destruct p as [tbl conds k ranges0]. simpl. unfold len. intros Hk.
  unfold indexRangeSteps, indexRangesSpec. simpl.
  destruct (equalityRanges m (firstn (Z.to_nat k) conds) ranges0 rb)
    as [ranges rb1] eqn:Hprefix.
  destruct (fold_left (intersectStep m) (skipn (Z.to_nat k) conds) (fullRange, rb1))
    as [pts rb2] eqn:Hpoints.
  (* the equality prefix *)
  erewrite bind_run.
  2: { destruct (k >? 0) eqn:Hpos.
       - destruct conds as [|c0 rest]; [simpl in Hk; lia|].
         destruct (Z.to_nat k) as [|k'] eqn:Hnat; [lia|].
         simpl in Hprefix.
         rewrite (bind_at _ _ c0) by reflexivity.
         rewrite bind_lift. destruct (build m c0 rb) as [point rb'].
         rewrite bind_lift. destruct (buildIndexRanges m point rb') as [r0 rb''].
         unfold forRange. change 1 with (Z.of_nat 1).
         rewrite (forLoop_forEach (appendCondition m) (c0 :: rest))
           by (simpl List.length in *; lia).
         replace (Z.to_nat (k - Z.of_nat 1)) with k' by lia.
         simpl skipn. rewrite forEach_append, Hprefix. reflexivity.
       - replace (Z.to_nat k) with O in Hprefix by lia.
         simpl in Hprefix. injection Hprefix as <- <-. reflexivity. }
  (* the remaining conditions *)
  erewrite bind_run.
  2: { unfold forRange, len.
       rewrite <- (Z2Nat.id k) at 1 by lia.
       rewrite (forLoop_forEach (intersectCondition m) conds) by lia.
       rewrite firstn_all2 by (rewrite length_skipn; lia).
       rewrite forEach_intersect, Hpoints. reflexivity. }
  (* the final case split *)
  destruct (k =? 0) eqn:Hzero.
  - apply Z.eqb_eq in Hzero. subst k. reflexivity.
  - apply Z.eqb_neq in Hzero.
    replace (Nat.eqb (Z.to_nat k) 0) with false by (symmetry; apply Nat.eqb_neq; lia).
    unfold len. destruct (k <? Z.of_nat (List.length conds)) eqn:Hlt.
    + replace (Nat.ltb (Z.to_nat k) (List.length conds)) with true
        by (symmetry; apply Nat.ltb_lt; apply Z.ltb_lt in Hlt; lia).
      reflexivity.
    + replace (Nat.ltb (Z.to_nat k) (List.length conds)) with false
        by (symmetry; apply Nat.ltb_ge; apply Z.ltb_ge in Hlt; lia).
      reflexivity.
Qed.

(** C3.  With [k] leading equality conditions out of [n], [0 <= k <= n],
    [buildIndexRange] returns, and leaves on the node the ranges of the
    design: the points of the first condition turned into index ranges
    and the points of conditions [1..k-1] appended in order; the points of
    conditions [k..n-1] intersected starting from the full range; and, at
    the end, the intersected points as the ranges for [k = 0], appended
    to the prefix ranges for [0 < k < n], and not appended for [k = n].
    The returned error is the builder's. *)
Theorem buildIndexRange_spec (p : IndexScan.t)
  (Hcount : 0 <= IndexScan.AccessEqualCount p <= len (IndexScan.AccessConditions p)) :
  buildIndexRange m p =
  Ok (IndexScan.setRanges p (fst (indexRangesSpec m p (mkRangeBuilder None))),
      Trace (err (snd (indexRangesSpec m p (mkRangeBuilder None))))).
Proof.
  unfold buildIndexRange. rewrite indexRangeSteps_spec by exact Hcount.
  destruct (indexRangesSpec m p (mkRangeBuilder None)) as [ranges rb]. reflexivity.
Qed.

End IndexRangeFacts.

(** C3 on two equality conditions with one of them in the prefix. *)
Lemma buildIndexRange_spec_witness :
  buildIndexRange Sample.ops
    (IndexScan.mk Sample.table [Sample.idEqExpr 1; Sample.idEqExpr 2] 1 [])
  = Ok (IndexScan.mk Sample.table [Sample.idEqExpr 1; Sample.idEqExpr 2] 1
          [mkIndexRange [types.Int64 1; types.Int64 2] false
                        [types.Int64 1; types.Int64 2] false],
        None).
Proof.
  rewrite (buildIndexRange_spec Sample.ops).
  - reflexivity.
  - unfold len. simpl. lia.
Defined.

(** * Facts about the tree driver *)

(** Induction over plans that reaches the children of a node. *)
Lemma Plan_children_ind (P : Plan -> Prop) :
  (forall x children, Forall P children -> P (Node x children)) ->
  forall p, P p.
Proof.
  intros Hnode. fix IH 1. intros [x children].
  apply Hnode.
  refine ((fix go (l : list Plan) : Forall P l :=
             match l with
             | [] => Forall_nil P
             | c :: rest => Forall_cons c (IH c) (go rest)
             end) children).
Qed.

Section ChildrenLoop.

Variable rec : Plan -> result (Plan * option error).


(** Conversely, an error out of the loop comes from one child, with the
    children before it done without error. *)
Lemma refineChildren_error (children children' : list Plan) (e' : error) :
  refineChildren rec children = Ok (children', Some e') ->
  exists before c after before' c' e,
    children = before ++ c :: after
    /\ children' = before' ++ c' :: after
    /\ refineChildren rec before = Ok (before', None)
    /\ rec c = Ok (c', Some e)
    /\ e' = Traced e.
Proof.
  revert children'. induction children as [|b rest IH]; intros children' H.
  - discriminate H.
  - simpl in H. destruct (rec b) as [[b' [eb|]]|] eqn:Hb; try discriminate H.
    + injection H as <- <-.
      exists [], b, rest, [], b', eb. repeat split; assumption.
    + destruct (refineChildren rec rest) as [[rest' oe]|] eqn:Hrest;
        try discriminate H.
      injection H as <- ->.
      destruct (IH rest' eq_refl)
        as [before [c [after [before' [c' [e [E1 [E2 [Hbefore [Hc He]]]]]]]]]].
      exists (b :: before), c, after, (b' :: before'), c', e.
      subst. repeat split; try assumption; try reflexivity.
      simpl. rewrite Hb, Hbefore. reflexivity.
Qed.

(** The loop keeps the number of nodes below, when each child does. *)
Lemma refineChildren_size (children children' : list Plan) (oe : option error) :
  Forall (fun c => forall c' o, rec c = Ok (c', o) ->
                   List.length (postorder c') = List.length (postorder c)) children ->
  refineChildren rec children = Ok (children', oe) ->
  List.length (flat_map postorder children')
  = List.length (flat_map postorder children).
Proof.
  intros Hall. revert children' oe.
  induction Hall as [|b rest Hb _ IH]; intros children' oe H.
  - injection H as <- _. reflexivity.
  - simpl in H. destruct (rec b) as [[b' [eb|]]|] eqn:Eb; try discriminate H.
    + injection H as <- _. simpl. rewrite !length_app, (Hb b' _ eq_refl). reflexivity.
    + destruct (refineChildren rec rest) as [[rest' o]|] eqn:Hrest;
        try discriminate H.
      injection H as <- _. simpl.
      rewrite !length_app, (Hb b' _ eq_refl), (IH rest' o eq_refl). reflexivity.
Qed.

End ChildrenLoop.

Section RefineFacts.

Variable m : builderOps.

(** The step of a node keeps its children in number and shape; the only
    child it may rewrite is the scan under a selection, in place. *)
Lemma refineNode_size (x : PlanNode) (children : list Plan) (q : Plan)
  (oe : option error) :
  refineNode m x children = Ok (q, oe) ->
  List.length (flat_map postorder (GetChildren q))
  = List.length (flat_map postorder children).
Proof.
  destruct x as [p|p|p|p|p|kind]; simpl.
  - destruct (buildIndexRange m p) as [[p' e]|]; [|discriminate].
    intros [= <- _]. reflexivity.
  - intros [= <- _]. reflexivity.
  - destruct (buildTableRange m p) as [p' e]. intros [= <- _]. reflexivity.
  - intros [= <- _]. reflexivity.
  - unfold buildSelection.
    destruct children as [|[[ | | |ts| | ] grand] rest]; simpl;
      try (intros [= <- _]; reflexivity).
    destruct (detachConditions (Selection.Conditions p) (NewTableScan.Table ts) None 0)
      as [[acc filt]|]; [|discriminate].
    destruct (buildNewTableRange m ts acc) as [ts' e].
    intros [= <- _]. simpl. rewrite !length_app. reflexivity.
  - intros [= <- _]. reflexivity.
Qed.

Lemma refine_size (p p' : Plan) (oe : option error) :
  refine m p = Ok (p', oe) ->
  List.length (postorder p') = List.length (postorder p).
Proof.
  revert p' oe. induction p as [x children IH] using Plan_children_ind.
  intros p' oe H. simpl in H.
  destruct (refineChildren (refine m) children) as [[children' [e|]]|] eqn:Hloop;
    try discriminate H.
  - injection H as <- _. simpl. rewrite !length_app.
    rewrite (refineChildren_size (refine m) children children' (Some e) IH Hloop).
    reflexivity.
  - destruct p' as [x' children'']. simpl. rewrite !length_app.
    pose proof (refineNode_size x children' _ _ H) as Hnode. simpl in Hnode.
    rewrite Hnode.
    rewrite (refineChildren_size (refine m) children children' None IH Hloop).
    reflexivity.
Qed.

(** Where refinement stops: the node whose own step returned the error,
    with the nodes after it in post-order untouched. *)
Lemma refine_error_suffix (p p' : Plan) (e : error) :
  refine m p = Ok (p', Some e) ->
  exists finished finished' x x' pending k e0 children q,
    postorder p = finished ++ x :: pending
    /\ postorder p' = finished' ++ x' :: pending
    /\ List.length finished' = List.length finished
    /\ refineNode m x children = Ok (q, Some e0)
    /\ nodeOf q = x'
    /\ e = traces k e0.
Proof.
  revert p' e. induction p as [x children IH] using Plan_children_ind.
  intros p' e H. simpl in H.
  destruct (refineChildren (refine m) children) as [[children' [e'|]]|] eqn:Hloop;
    try discriminate H.
  - injection H as <- <-.
    destruct (refineChildren_error (refine m) children children' e' Hloop)
      as [before [c [after [before' [c' [e1 [E1 [E2 [Hbefore [Hc He]]]]]]]]]].
    subst children children' e'.
    assert (IHc : forall p' e, refine m c = Ok (p', Some e) ->
      exists finished finished' x x' pending k e0 children q,
        postorder c = finished ++ x :: pending
        /\ postorder p' = finished' ++ x' :: pending
        /\ List.length finished' = List.length finished
        /\ refineNode m x children = Ok (q, Some e0)
        /\ nodeOf q = x'
        /\ e = traces k e0).
    { rewrite Forall_forall in IH. apply IH. apply in_or_app. right. left. reflexivity. }
    destruct (IHc c' e1 Hc)
      as [fin [fin' [y [y' [pend [k [e0 [cs [q [P1 [P2 [P3 [P4 [P5 P6]]]]]]]]]]]]]].
    exists (flat_map postorder before ++ fin), (flat_map postorder before' ++ fin'),
           y, y', (pend ++ flat_map postorder after ++ [x]), (S k), e0, cs, q.
    repeat split.
    + simpl. rewrite flat_map_app. simpl. rewrite P1.
      rewrite <- !app_assoc. reflexivity.
    + simpl. rewrite flat_map_app. simpl. rewrite P2.
      rewrite <- !app_assoc. reflexivity.
    + rewrite !length_app, P3. f_equal.
      apply (refineChildren_size (refine m) before before' None); [|exact Hbefore].
      apply Forall_forall. intros b Hb b' o Hr. exact (refine_size b b' o Hr).
    + exact P4.
    + exact P5.
    + simpl. rewrite P6. reflexivity.
  - destruct p' as [x' children''].
    exists (flat_map postorder children), (flat_map postorder children''),
           x, x', [], O, e, children', (Node x' children'').
    repeat split; try reflexivity.
    + pose proof (refineNode_size x children' _ _ H) as Hnode. simpl in Hnode.
      rewrite Hnode.
      apply (refineChildren_size (refine m) children children' None); [|exact Hloop].
      apply Forall_forall. intros b Hb b' o Hr. exact (refine_size b b' o Hr).
    + exact H.
Qed.

End RefineFacts.

(** * Facts about scans and selections *)

Section ScanFacts.

Variable m : builderOps.


(** The loop of [buildNewTableRange] that runs to its end has built and
    intersected the points of every condition. *)
Lemma newTableRangeLoop_done (conds : list Expression) (pts pts' : list rangePoint)
  (rb rb' : rangeBuilder) :
  newTableRangeLoop m conds pts rb = inr (pts', rb') ->
  intersectAll m conds pts rb = (pts', rb').
Proof.
  revert pts rb. induction conds as [|cond rest IH]; intros pts rb H; simpl in *.
  - injection H as <- <-. reflexivity.
  - destruct (newBuild m cond rb) as [point rb1].
    destruct (intersection m pts point rb1) as [pts1 rb2].
    destruct (err rb2); [discriminate H|]. apply IH. exact H.
Qed.

(** What [buildNewTableRange] leaves on the scan when it returns no
    error. *)
Lemma buildNewTableRange_success (p p' : NewTableScan.t) (conds : list Expression) :
  conds <> [] ->
  buildNewTableRange m p conds = (p', None) ->
  NewTableScan.Table p' = NewTableScan.Table p
  /\ NewTableScan.AccessCondition p' = conds
  /\ NewTableScan.Ranges p'
     = fst (buildTableRanges m
              (fst (intersectAll m conds fullRange (mkRangeBuilder None)))
              (snd (intersectAll m conds fullRange (mkRangeBuilder None)))).
Proof.
  intros Hne H. unfold buildNewTableRange in H.
  destruct conds as [|c0 rest]; [contradiction Hne; reflexivity|].
  destruct (newTableRangeLoop m (c0 :: rest) fullRange (mkRangeBuilder None))
    as [e|[pts rb]] eqn:Hloop.
  - discriminate H.
  - rewrite (newTableRangeLoop_done _ _ _ _ _ Hloop). simpl fst. simpl snd.
    destruct (buildTableRanges m pts rb) as [ranges rb'].
    injection H as <- _. repeat split; reflexivity.
Qed.

(** The selection over a [NewTableScan]: the split, what is written on
    the two nodes, and the error. *)
Lemma buildSelection_NewTableScan_child
  (p : Selection.t) (tableScan : NewTableScan.t) (grand rest : list Plan)
  (Hwf : Forall (fun con => arityOk con = true) (Selection.Conditions p)) :
  let table := NewTableScan.Table tableScan in
  let accessible := filter (keeps table None 0) (Selection.Conditions p) in
  let residual :=
    filter (fun con => negb (keeps table None 0 con)) (Selection.Conditions p) in
  detachConditions (Selection.Conditions p) table None 0 = Ok (accessible, residual)
  /\ buildSelection m p (Node (PNewTableScan tableScan) grand :: rest)
     = Ok (Selection.mk residual,
           Node (PNewTableScan (fst (buildNewTableRange m tableScan accessible))) grand
           :: rest,
           Trace (snd (buildNewTableRange m tableScan accessible)))
  /\ refineNode m (PSelection p) (Node (PNewTableScan tableScan) grand :: rest)
     = Ok (Node (PSelection (Selection.mk residual))
             (Node (PNewTableScan (fst (buildNewTableRange m tableScan accessible)))
                grand
              :: rest),
           Trace (Trace (snd (buildNewTableRange m tableScan accessible))))
  /\ (accessible = [] ->
      buildNewTableRange m tableScan accessible
      = (NewTableScan.setRanges tableScan fullTableRanges, None))
  /\ (accessible <> [] ->
      snd (buildNewTableRange m tableScan accessible) = None ->
      NewTableScan.AccessCondition (fst (buildNewTableRange m tableScan accessible))
      = accessible
      /\ NewTableScan.Ranges (fst (buildNewTableRange m tableScan accessible))
         = fst (buildTableRanges m
                  (fst (intersectAll m accessible fullRange (mkRangeBuilder None)))
                  (snd (intersectAll m accessible fullRange (mkRangeBuilder None))))).
Proof.
  intros table accessible residual.
  pose proof (detachConditions_filter (Selection.Conditions p) table None 0 Hwf) as Hrun.
  fold accessible residual in Hrun.
  assert (Hsel : buildSelection m p (Node (PNewTableScan tableScan) grand :: rest)
     = Ok (Selection.mk residual,
           Node (PNewTableScan (fst (buildNewTableRange m tableScan accessible))) grand
           :: rest,
           Trace (snd (buildNewTableRange m tableScan accessible)))).
  { unfold buildSelection. simpl. fold table. rewrite Hrun.
    destruct (buildNewTableRange m tableScan accessible) as [ts' e]. reflexivity. }
  split; [exact Hrun|]. split; [exact Hsel|]. split; [|split].
  - simpl. rewrite Hsel. reflexivity.
  - intros Hnone. rewrite Hnone. reflexivity.
  - intros Hsome Hok.
    destruct (buildNewTableRange m tableScan accessible) as [ts' e] eqn:Hb.
    simpl in Hok. subst e.
    destruct (buildNewTableRange_success tableScan ts' accessible Hsome Hb)
      as [_ [Hcond Hranges]].
    split; assumption.
Qed.

(** A selection whose first child is not a [NewTableScan], or that has no
    child, is left as it is. *)
Lemma buildSelection_other_child (p : Selection.t) (children : list Plan) :
  (forall tableScan grand,
     GetChildByIndex children 0 <> Some (Node (PNewTableScan tableScan) grand)) ->
  buildSelection m p children = Ok (p, children, None).
Proof.
  intros Hother. unfold buildSelection.
  destruct (GetChildByIndex children 0) as [[[a|a|a|ts|a|kind] grand]|];
    try reflexivity.
  contradiction (Hother ts grand). reflexivity.
Qed.

(** C8, as the code has it.  For a selection whose first child is a
    [NewTableScan], with well-formed conditions: the conditions are split
    with the scan's table against its primary key; the selection keeps
    exactly the residual conditions; the scan is rewritten by
    [buildNewTableRange] on the accessible ones, whose error is returned;
    with nothing accessible the scan gets the full range; and when no
    error is returned the scan's ranges are the table ranges of the
    points of the accessible conditions, built and intersected in order
    from the full range.  A selection whose first child is of any other
    kind, or that has no child, keeps its conditions and its children as
    they were, and returns no error. *)
Theorem buildSelection_over_NewTableScan (p : Selection.t) :
  (forall (tableScan : NewTableScan.t) (grand rest : list Plan),
     Forall (fun con => arityOk con = true) (Selection.Conditions p) ->
     let table := NewTableScan.Table tableScan in
     let accessible := filter (keeps table None 0) (Selection.Conditions p) in
     let residual :=
       filter (fun con => negb (keeps table None 0 con)) (Selection.Conditions p) in
     detachConditions (Selection.Conditions p) table None 0 = Ok (accessible, residual)
     /\ buildSelection m p (Node (PNewTableScan tableScan) grand :: rest)
        = Ok (Selection.mk residual,
              Node (PNewTableScan (fst (buildNewTableRange m tableScan accessible))) grand
              :: rest,
              Trace (snd (buildNewTableRange m tableScan accessible)))
     /\ refineNode m (PSelection p) (Node (PNewTableScan tableScan) grand :: rest)
        = Ok (Node (PSelection (Selection.mk residual))
                (Node (PNewTableScan (fst (buildNewTableRange m tableScan accessible)))
                   grand
                 :: rest),
              Trace (Trace (snd (buildNewTableRange m tableScan accessible))))
     /\ (accessible = [] ->
         buildNewTableRange m tableScan accessible
         = (NewTableScan.setRanges tableScan fullTableRanges, None))
     /\ (accessible <> [] ->
         snd (buildNewTableRange m tableScan accessible) = None ->
         NewTableScan.AccessCondition (fst (buildNewTableRange m tableScan accessible))
         = accessible
         /\ NewTableScan.Ranges (fst (buildNewTableRange m tableScan accessible))
            = fst (buildTableRanges m
                     (fst (intersectAll m accessible fullRange (mkRangeBuilder None)))
                     (snd (intersectAll m accessible fullRange (mkRangeBuilder None))))))
  /\ (forall children : list Plan,
        (forall tableScan grand,
           GetChildByIndex children 0 <> Some (Node (PNewTableScan tableScan) grand)) ->
        buildSelection m p children = Ok (p, children, None)
        /\ refineNode m (PSelection p) children = Ok (Node (PSelection p) children, None)).
Proof.
  split.
  - intros tableScan grand rest Hwf.
    exact (buildSelection_NewTableScan_child p tableScan grand rest Hwf).
  - intros children Hother.
    pose proof (buildSelection_other_child p children Hother) as Hsel.
    split; [exact Hsel|]. simpl. rewrite Hsel. reflexivity.
Qed.

End ScanFacts.


(** C8 on the selection [id = 5 AND name] over a new table scan: the
    scan gets the range [(5, 5)] and the selection keeps [name]. *)
Lemma buildSelection_over_NewTableScan_witness :
  buildSelection Sample.ops (Selection.mk [Sample.idEq 5; Sample.nameCol])
    [Node (PNewTableScan (NewTableScan.mk Sample.table [] fullTableRanges)) []]
  = Ok (Selection.mk [Sample.nameCol],
        [Node (PNewTableScan
                 (NewTableScan.mk Sample.table [Sample.idEq 5] [mkTableRange 5 5])) []],
        None).
Proof.
  destruct (proj1 (buildSelection_over_NewTableScan Sample.ops
                     (Selection.mk [Sample.idEq 5; Sample.nameCol]))
              (NewTableScan.mk Sample.table [] fullTableRanges) [] [])
    as [_ [Hsel _]].
  - repeat constructor.
  - rewrite Hsel. reflexivity.
Defined.

(** C8 fails on a selection over a scan that is not a [NewTableScan]:
    over a [TableScan] of the table with primary key [id], the condition
    [id = 5] is accessible and the residual list is empty, yet the
    selection keeps its condition and the scan's ranges are not built
    from it. *)
Lemma selection_over_TableScan_untouched :
  detachConditions [Sample.idEq 5] Sample.table None 0 = Ok ([Sample.idEq 5], [])
  /\ buildSelection Sample.ops (Selection.mk [Sample.idEq 5])
       [Node (PTableScan (TableScan.mk Sample.table [] [])) []]
     = Ok (Selection.mk [Sample.idEq 5],
           [Node (PTableScan (TableScan.mk Sample.table [] [])) []],
           None)
  /\ refine Sample.ops
       (Node (PSelection (Selection.mk [Sample.idEq 5]))
          [Node (PTableScan (TableScan.mk Sample.table [] [])) []])
     = Ok (Node (PSelection (Selection.mk [Sample.idEq 5]))
             [Node (PTableScan (TableScan.mk Sample.table [] fullTableRanges)) []],
           None)
  /\ Selection.mk [Sample.idEq 5] <> Selection.mk [].
Proof.
  repeat split; try reflexivity. discriminate.
Qed.

(** * Further facts about the classifier *)

(** X1.  The column test at its edges.  A column of another table is
    rejected whatever the target is, without reading the index.  With a
    primary-key name the index and the offset are not read: the test is
    the table name and the key name.  Without a primary-key name and
    without an index every column of the table passes.  Without a
    primary-key name and with an index whose offset lies outside the
    index, a column of the table makes the test panic.  Both forms run
    the same test. *)
Theorem column_test_edges (c : conditionChecker) (tbl col : model.CIStr) :
  checkColumnExpr c (ColumnNameExpr (mkResultField tbl col)) = checkColumn c (Column tbl col)
  /\ ((model.L tbl =? model.L (tableName c))%string = false ->
      checkColumn c (Column tbl col) = Ok false)
  /\ ((model.L (pkName c) =? EmptyString)%string = false ->
      checkColumn c (Column tbl col)
      = Ok ((model.L tbl =? model.L (tableName c))%string
            && (model.L (pkName c) =? model.L col)%string))
  /\ ((model.L tbl =? model.L (tableName c))%string = true ->
      (model.L (pkName c) =? EmptyString)%string = true ->
      idx c = None ->
      checkColumn c (Column tbl col) = Ok true)
  /\ (forall ix,
        (model.L tbl =? model.L (tableName c))%string = true ->
        (model.L (pkName c) =? EmptyString)%string = true ->
        idx c = Some ix ->
        columnOffset c < 0 \/ len (model.IdxColumns ix) <= columnOffset c ->
        checkColumn c (Column tbl col) = Panic).
Proof.
  split; [reflexivity|].
  simpl. unfold checkName.
  split; [|split; [|split]].
  - intros Htbl. rewrite Htbl. reflexivity.
  - intros Hpk. rewrite Hpk.
    destruct (model.L tbl =? model.L (tableName c))%string; reflexivity.
  - intros Htbl Hpk Hidx. rewrite Htbl, Hpk, Hidx. reflexivity.
  - intros ix Htbl Hpk Hidx Hoff. rewrite Htbl, Hpk, Hidx. simpl.
    unfold index. destruct (columnOffset c <? 0) eqn:Hneg; [reflexivity|].
    apply Z.ltb_ge in Hneg.
    destruct (nth_error (model.IdxColumns ix) (Z.to_nat (columnOffset c))) eqn:Hn;
      [|reflexivity].
    assert (Hsome : nth_error (model.IdxColumns ix) (Z.to_nat (columnOffset c)) <> None)
      by (rewrite Hn; discriminate).
    apply nth_error_Some in Hsome. unfold len in Hoff. lia.
Qed.

(** X1 on the column [id] of table [t]: against an index with one column
    and offset 1. *)
Lemma column_test_edges_witness :
  checkColumn
    (mkChecker (Sample.ci "t") (Some (model.mkIndexInfo [model.mkIndexColumn (Sample.ci "id")]))
       1 emptyCIStr)
    Sample.idCol = Panic.
Proof.
  apply (proj2 (proj2 (proj2 (proj2
           (column_test_edges
              (mkChecker (Sample.ci "t")
                 (Some (model.mkIndexInfo [model.mkIndexColumn (Sample.ci "id")]))
                 1 emptyCIStr)
              (Sample.ci "t") (Sample.ci "id"))))))
    with (ix := model.mkIndexInfo [model.mkIndexColumn (Sample.ci "id")]);
    try reflexivity.
  right. unfold len. simpl. lia.
Defined.

Lemma andThen_true (a b : result bool) :
  andThen a b = Ok true <-> a = Ok true /\ b = Ok true.
Proof.
  destruct a as [[|]|]; simpl; split; try tauto; try (intros H; discriminate H);
    intros [H _]; discriminate H.
Qed.

(** X2.  AND and OR are classified alike, in both forms: the predicate is
    accessible exactly when both sides are, and when the left side is not
    accessible the right side is not looked at, so that it cannot make
    the call panic. *)
Theorem logic_accessible_iff (ops : nodeOps) (c : conditionChecker) :
  (forall l r,
     check ops c (BinaryOperationExpr opcode.OrOr l r)
     = check ops c (BinaryOperationExpr opcode.AndAnd l r))
  /\ (forall l r,
        check ops c (BinaryOperationExpr opcode.AndAnd l r) = Ok true
        <-> check ops c l = Ok true /\ check ops c r = Ok true)
  /\ (forall l r, check ops c l = Ok false ->
        check ops c (BinaryOperationExpr opcode.AndAnd l r) = Ok false)
  /\ (forall o o' l r rest,
        newCheck c (ScalarFunction (model.mkCIStr o ast.OrOr) (l :: r :: rest))
        = newCheck c (ScalarFunction (model.mkCIStr o' ast.AndAnd) (l :: r :: rest)))
  /\ (forall o l r rest,
        newCheck c (ScalarFunction (model.mkCIStr o ast.AndAnd) (l :: r :: rest)) = Ok true
        <-> newCheck c l = Ok true /\ newCheck c r = Ok true)
  /\ (forall o l rest, newCheck c l = Ok false ->
        newCheck c (ScalarFunction (model.mkCIStr o ast.AndAnd) (l :: rest)) = Ok false).
Proof.
  split; [reflexivity|]. split; [|split; [|split; [|split]]].
  - intros l r. simpl. apply andThen_true.
  - intros l r H. simpl. rewrite H. reflexivity.
  - reflexivity.
  - intros o l r rest.
    change (newCheck c (ScalarFunction (model.mkCIStr o ast.AndAnd) (l :: r :: rest)))
      with (andThen (newCheck c l) (newCheck c r)).
    apply andThen_true.
  - intros o l rest H.
    change (newCheck c (ScalarFunction (model.mkCIStr o ast.AndAnd) (l :: rest)))
      with (andThen (newCheck c l)
              (match rest with [] => Panic | a1 :: _ => newCheck c a1 end)).
    rewrite H. reflexivity.
Qed.

(** X2 on [name AND id LIKE ''] against the primary key [id]: the left
    side is rejected and the LIKE on the right is never reached. *)
Lemma logic_accessible_iff_witness :
  check Lit.ops Sample.pkChecker
    (BinaryOperationExpr opcode.AndAnd Sample.nameExpr (Sample.idLike EmptyString))
  = Ok false.
Proof.
  apply (proj1 (proj2 (proj2 (logic_accessible_iff Lit.ops Sample.pkChecker)))).
  reflexivity.
Defined.

Section MoreClassifierFacts.

Variable ops : nodeOps.
Variable c : conditionChecker.
Variable t : Target.
Hypothesis Htarget : targetOf c = Some t.
Hypothesis Hvalid : validTarget t = true.

(** X3.  BETWEEN and the IS tests, for a checker with a valid target.
    BETWEEN is accessible exactly when both bounds are pre-evaluable and
    the tested expression is a plain reference to the target column; an
    IS NULL or IS TRUE/FALSE test exactly when its operand is one.  The
    negation flag of the three nodes, and the truth value of the IS
    TRUE/FALSE node, are not read: NOT BETWEEN and IS NOT NULL are
    classified as BETWEEN and IS NULL are.  In the scalar-function form
    the three IS functions test their first argument in the same way. *)
Theorem between_and_is_tests :
  (forall e lo hi not,
     check ops c (BetweenExpr e lo hi not)
     = Ok (IsPreEvaluable ops lo && IsPreEvaluable ops hi
           && isTargetColumnExpr (tableName c) t e))
  /\ (forall e not,
        check ops c (IsNullExpr e not) = Ok (isTargetColumnExpr (tableName c) t e))
  /\ (forall e not tr,
        check ops c (IsTruthExpr e not tr) = Ok (isTargetColumnExpr (tableName c) t e))
  /\ (forall name a0 rest, isTruthName (model.L name) = true ->
        newCheck c (ScalarFunction name (a0 :: rest))
        = Ok (isTargetColumn (tableName c) t a0)).
Proof.
  split; [|split; [|split]].
  - intros e lo hi not. simpl.
    rewrite (checkColumnExpr_target c t e Htarget Hvalid).
    destruct (IsPreEvaluable ops lo && IsPreEvaluable ops hi); reflexivity.
  - intros e not. simpl. apply checkColumnExpr_target; assumption.
  - intros e not tr. simpl. apply checkColumnExpr_target; assumption.
  - intros [o n] a0 rest Hn. simpl in Hn.
    rewrite <- (checkColumn_target c t a0 Htarget Hvalid).
    unfold isTruthName in Hn.
    repeat (apply orb_true_iff in Hn; destruct Hn as [Hn|Hn]);
      apply String.eqb_eq in Hn; subst n; reflexivity.
Qed.

(** X4.  IN, for a checker with a valid target: accessible exactly when
    there is no sub-select, the node is not negated, the tested
    expression is a plain reference to the target column and every
    element of the list is pre-evaluable; an empty list passes. *)
Theorem pattern_in_accessible :
  forall e l not sel,
    check ops c (PatternInExpr e l not sel)
    = Ok (match sel with Some _ => false | None => true end
          && negb not
          && isTargetColumnExpr (tableName c) t e
          && forallb (IsPreEvaluable ops) l).
Proof.
  intros e l not sel. simpl. unfold checkPatternIn.
  rewrite (checkColumnExpr_target c t e Htarget Hvalid).
  destruct sel, not; simpl; try reflexivity.
  destruct (isTargetColumnExpr (tableName c) t e); reflexivity.
Qed.

(** X5.  LIKE, for a checker with a valid target.  The call returns true
    exactly when the node is not negated, the tested expression is a
    plain reference to the target column, the pattern is pre-evaluable
    with a value that is not nil and converts to a string, and that
    string has a first byte other than ['%'] and ['.'].  The call panics
    exactly when all of that holds up to the conversion and the string is
    empty; the bytes after the first and the escape byte are not read. *)
Theorem like_decision_cases :
  forall e pattern not esc,
    (check ops c (PatternLikeExpr e pattern not esc) = Ok true
     <-> not = false
         /\ isTargetColumnExpr (tableName c) t e = true
         /\ IsPreEvaluable ops pattern = true
         /\ types.isNil (GetValue ops pattern) = false
         /\ exists a s,
              ToString ops (GetValue ops pattern) = Some (String a s)
              /\ Ascii.eqb a "%" = false /\ Ascii.eqb a "." = false)
    /\ (check ops c (PatternLikeExpr e pattern not esc) = Panic
        <-> not = false
            /\ isTargetColumnExpr (tableName c) t e = true
            /\ IsPreEvaluable ops pattern = true
            /\ types.isNil (GetValue ops pattern) = false
            /\ ToString ops (GetValue ops pattern) = Some EmptyString).
Proof.
  intros e pattern not esc. simpl. unfold checkPatternLike.
  rewrite (checkColumnExpr_target c t e Htarget Hvalid).
  destruct not.
  { split; split; try (intros H; discriminate H);
      intros [H _]; discriminate H. }
  destruct (isTargetColumnExpr (tableName c) t e).
  2: { split; split; try (intros H; discriminate H);
         intros [_ [H _]]; discriminate H. }
  destruct (IsPreEvaluable ops pattern); simpl.
  2: { split; split; try (intros H; discriminate H);
         intros [_ [_ [H _]]]; discriminate H. }
  destruct (types.isNil (GetValue ops pattern)).
  { split; split; try (intros H; discriminate H);
      intros [_ [_ [_ [H _]]]]; discriminate H. }
  destruct (ToString ops (GetValue ops pattern)) as [[|a s]|].
  - split; split; try (intros H; discriminate H).
    + intros [_ [_ [_ [_ [a [s [H _]]]]]]]. discriminate H.
    + intros _. repeat split; reflexivity.
    + intros _. reflexivity.
  - split; split.
    + intros H. injection H as H. apply andb_true_iff in H. destruct H as [H1 H2].
      apply negb_true_iff in H1. apply negb_true_iff in H2.
      repeat split; try reflexivity. exists a, s. repeat split; assumption.
    + intros [_ [_ [_ [_ [a' [s' [H [H1 H2]]]]]]]]. injection H as <- <-.
      rewrite H1, H2. reflexivity.
    + intros H. discriminate H.
    + intros [_ [_ [_ [_ H]]]]. discriminate H.
  - split; split; try (intros H; discriminate H).
    + intros [_ [_ [_ [_ [a [s [H _]]]]]]]. discriminate H.
    + intros [_ [_ [_ [_ H]]]]. discriminate H.
Qed.

(** X6.  [check] returns a boolean on every predicate in which no LIKE it
    can reach has a pattern that converts to the empty string: with a
    valid target the empty LIKE pattern is the only way to a panic. *)
Theorem check_returns (e : ExprNode) :
  likePatternsNonEmpty ops e = true ->
  exists b, check ops c e = Ok b.
Proof.
  induction e as [op l IHl r IHr|e1 _ lo _ hi _ not| |e1 _ not|e1 _ not tr|x IHx
                  |e1 _ l not sel|e1 _ pattern _ not esc| | | |];
    intros Hlike; simpl in Hlike.
  - apply andb_true_iff in Hlike. destruct Hlike as [Hl Hr].
    destruct (IHl Hl) as [bl El]. destruct (IHr Hr) as [br Er].
    destruct op; simpl; try (eexists; reflexivity);
      try (rewrite El, Er; destruct bl; simpl; eexists; reflexivity);
      (unfold checkComparison;
       rewrite !(checkColumnExpr_target c t) by assumption;
       destruct (IsPreEvaluable ops l); [eexists; reflexivity|];
       destruct (IsPreEvaluable ops r); eexists; reflexivity).
  - simpl. rewrite (checkColumnExpr_target c t e1 Htarget Hvalid).
    destruct (IsPreEvaluable ops lo && IsPreEvaluable ops hi); eexists; reflexivity.
  - simpl. rewrite (checkName_refersTo c t _ _ Htarget Hvalid). eexists; reflexivity.
  - simpl. rewrite (checkColumnExpr_target c t e1 Htarget Hvalid). eexists; reflexivity.
  - simpl. rewrite (checkColumnExpr_target c t e1 Htarget Hvalid). eexists; reflexivity.
  - simpl. apply IHx. exact Hlike.
  - simpl. unfold checkPatternIn.
    rewrite (checkColumnExpr_target c t e1 Htarget Hvalid).
    destruct ((match sel with Some _ => true | None => false end) || not);
      [eexists; reflexivity|].
    destruct (isTargetColumnExpr (tableName c) t e1); eexists; reflexivity.
  - simpl. unfold checkPatternLike.
    rewrite (checkColumnExpr_target c t e1 Htarget Hvalid).
    destruct not; [eexists; reflexivity|].
    destruct (isTargetColumnExpr (tableName c) t e1); [|eexists; reflexivity].
    destruct (IsPreEvaluable ops pattern); simpl; [|eexists; reflexivity].
    destruct (types.isNil (GetValue ops pattern)); [eexists; reflexivity|].
    destruct (ToString ops (GetValue ops pattern)) as [[|a s]|];
      try discriminate Hlike; eexists; reflexivity.
  - eexists; reflexivity.
  - eexists; reflexivity.
  - eexists; reflexivity.
  - eexists; reflexivity.
Qed.

End MoreClassifierFacts.

(** X3 on [id NOT BETWEEN 1 AND 9] against the primary key [id]. *)
Lemma between_and_is_tests_witness :
  check Lit.ops Sample.pkChecker
    (BetweenExpr Sample.idExpr (Sample.intExpr 1) (Sample.intExpr 9) true) = Ok true.
Proof.
  apply (proj1 (between_and_is_tests Lit.ops Sample.pkChecker
                  (PrimaryKey (Sample.ci "id")) eq_refl eq_refl)).
Defined.

(** X4 on [id IN ()] against the primary key [id]. *)
Lemma pattern_in_accessible_witness :
  check Lit.ops Sample.pkChecker (PatternInExpr Sample.idExpr [] false None) = Ok true.
Proof.
  apply (pattern_in_accessible Lit.ops Sample.pkChecker
           (PrimaryKey (Sample.ci "id")) eq_refl eq_refl).
Defined.

(** X5 on [id LIKE 'ab%'] against the primary key [id]. *)
Lemma like_decision_cases_witness :
  check Lit.ops Sample.pkChecker (Sample.idLike "ab%") = Ok true.
Proof.
  apply (proj1 (like_decision_cases Lit.ops Sample.pkChecker
                  (PrimaryKey (Sample.ci "id")) eq_refl eq_refl
                  Sample.idExpr (Sample.strExpr "ab%") false (ascii_of_nat 92))).
  repeat split. exists "a"%char, "b%". repeat split.
Defined.

(** X6 on [id LIKE 'ab%' AND id = 1] against the primary key [id]. *)
Lemma check_returns_witness :
  exists b,
    check Lit.ops Sample.pkChecker
      (BinaryOperationExpr opcode.AndAnd (Sample.idLike "ab%") (Sample.idEqExpr 1))
    = Ok b.
Proof.
  apply (check_returns Lit.ops Sample.pkChecker
           (PrimaryKey (Sample.ci "id")) eq_refl eq_refl).
  reflexivity.
Defined.

(** X7.  How [checkScalarFunction] reads its arguments.  A function
    whose name it does not know is not accessible, whatever its
    arguments.  A function it knows panics without arguments, a
    comparison panics with one argument, and AND/OR with one argument
    panics unless that argument is not accessible.  Arguments after the
    second are never read.  With the arguments it reads in place, and a
    column test that cannot leave the index, the call returns a
    boolean. *)
Theorem scalar_function_arguments (c : conditionChecker) :
  (forall name args,
     isLogicName (model.L name) = false ->
     isCompareName (model.L name) = false ->
     isTruthName (model.L name) = false ->
     (model.L name =? ast.UnaryNot)%string = false ->
     checkScalarFunction c name args = Ok false)
  /\ (forall name,
        isLogicName (model.L name) || isCompareName (model.L name)
        || isTruthName (model.L name) || (model.L name =? ast.UnaryNot)%string = true ->
        checkScalarFunction c name [] = Panic)
  /\ (forall name a0, isCompareName (model.L name) = true ->
        checkScalarFunction c name [a0] = Panic)
  /\ (forall name a0, isLogicName (model.L name) = true ->
        checkScalarFunction c name [a0] = andThen (newCheck c a0) Panic)
  /\ (forall name a0 a1 rest,
        checkScalarFunction c name (a0 :: a1 :: rest)
        = checkScalarFunction c name [a0; a1])
  /\ (forall e, columnTestTotal c -> arityOk e = true -> exists b, newCheck c e = Ok b).
Proof.
  unfold checkScalarFunction.
  split; [|split; [|split; [|split; [|split]]]].
  - intros name args H1 H2 H3 H4. simpl. rewrite H1, H2, H3, H4. reflexivity.
  - intros name H. simpl.
    destruct (isLogicName (model.L name)); [reflexivity|].
    destruct (isCompareName (model.L name)); [reflexivity|].
    destruct (isTruthName (model.L name)); [reflexivity|].
    destruct (model.L name =? ast.UnaryNot)%string; [reflexivity|discriminate H].
  - intros name a0 H. simpl.
    destruct (isLogicName (model.L name)) eqn:Hl.
    + destruct name as [o n]. simpl in *.
      destruct (compareName_cases n H) as [E|[E|[E|[E|[E|E]]]]]; subst n;
        discriminate Hl.
    + rewrite H. reflexivity.
  - intros name a0 H. simpl. rewrite H. reflexivity.
  - intros name a0 a1 rest. simpl.
    destruct (isLogicName (model.L name)); [reflexivity|].
    destruct (isCompareName (model.L name)); [reflexivity|].
    destruct (isTruthName (model.L name)); [reflexivity|].
    destruct (model.L name =? ast.UnaryNot)%string; reflexivity.
  - intros e Hc Hwf. apply newCheck_total; assumption.
Qed.

(** X7 on the comparison [eq(id)], one argument short. *)
Lemma scalar_function_arguments_witness :
  checkScalarFunction Sample.pkChecker (funcName ast.EQ) [Sample.idCol] = Panic.
Proof.
  apply (proj1 (proj2 (proj2 (scalar_function_arguments Sample.pkChecker)))).
  reflexivity.
Defined.

(** * Further facts about the splitter *)

(** With a primary-key name in the checker, the index and the offset do
    not enter the column test. *)
Lemma checkName_primaryKey (tn pk : model.CIStr) (ix ix' : option model.IndexInfo)
  (off off' : Z) (tbl col : model.CIStr) :
  negb (model.L pk =? EmptyString)%string = true ->
  checkName (mkChecker tn ix off pk) tbl col = checkName (mkChecker tn ix' off' pk) tbl col.
Proof.
  intros Hpk. unfold checkName. simpl. rewrite Hpk. reflexivity.
Qed.

Lemma newCheck_primaryKey (tn pk : model.CIStr) (ix ix' : option model.IndexInfo)
  (off off' : Z) (e : Expression) :
  negb (model.L pk =? EmptyString)%string = true ->
  newCheck (mkChecker tn ix off pk) e = newCheck (mkChecker tn ix' off' pk) e.
Proof.
  intros Hpk.
  assert (Hcol : forall a, checkColumn (mkChecker tn ix off pk) a
                           = checkColumn (mkChecker tn ix' off' pk) a).
  { intros [name args|tbl col|v]; simpl; try reflexivity.
    apply checkName_primaryKey. exact Hpk. }
  induction e as [name args IH|tbl col|v] using Expression_args_ind.
  - simpl.
    destruct (isLogicName (model.L name)).
    { destruct args as [|a0 rest]; [reflexivity|].
      inversion IH as [|? ? IH0 IHrest]; subst. rewrite IH0.
      destruct rest as [|a1 rest']; [reflexivity|].
      inversion IHrest as [|? ? IH1 _]; subst. rewrite IH1. reflexivity. }
    destruct (isCompareName (model.L name)).
    { destruct args as [|a0 [|a1 rest]]; try reflexivity.
      rewrite !Hcol. reflexivity. }
    destruct (isTruthName (model.L name)).
    { destruct args as [|a0 rest]; [reflexivity|]. apply Hcol. }
    destruct (model.L name =? ast.UnaryNot)%string; [|reflexivity].
    destruct args as [|a0 rest]; [reflexivity|].
    inversion IH as [|? ? IH0 _]; subst. exact IH0.
  - apply Hcol.
  - reflexivity.
Qed.

Lemma detachLoop_ignores_index (pk : model.CIStr) (table : model.TableInfo)
  (ix ix' : option model.IndexInfo) (off off' : Z)
  (conditions acc filt : list Expression) :
  detachLoop pk table ix off conditions acc filt
  = detachLoop pk table ix' off' conditions acc filt.
Proof.
  revert acc filt. induction conditions as [|con rest IH]; intros acc filt; simpl.
  - reflexivity.
  - destruct (negb (model.L pk =? EmptyString)%string) eqn:Hpk.
    + rewrite (newCheck_primaryKey (model.TblName table) pk ix ix' off off' con Hpk).
      destruct (newCheck (mkChecker (model.TblName table) ix' off' pk) con) as [[|]|];
        [apply IH|apply IH|reflexivity].
    + apply IH.
Qed.

(** X8.  The splitter never reads the index and the column offset it is
    given: conditions are classified against the primary key or not at
    all, so the two arguments do not change the result. *)
Theorem detachConditions_ignores_index
  (conditions : list Expression) (table : model.TableInfo)
  (ix ix' : option model.IndexInfo) (colOffset colOffset' : Z) :
  detachConditions conditions table ix colOffset
  = detachConditions conditions table ix' colOffset'.
Proof.
  unfold detachConditions. apply detachLoop_ignores_index.
Qed.

Ltac wrong_arity H :=
  exfalso; unfold len in H; simpl List.length in H; apply Z.eqb_eq in H; lia.

(** Every column of a predicate that [newCheck] accepts is the target
    column. *)
Lemma newCheck_true_columns (c : conditionChecker) (t : Target) (e : Expression) :
  targetOf c = Some t ->
  validTarget t = true ->
  arityExact e = true ->
  newCheck c e = Ok true ->
  Forall (fun tc => refersTo (tableName c) t (fst tc) (snd tc) = true) (columnsOf e).
Proof.
  intros Ht Hv.
  assert (Hcol : forall a, checkColumn c a = Ok true ->
            Forall (fun tc => refersTo (tableName c) t (fst tc) (snd tc) = true)
              (columnsOf a)).
  { intros [name args|tbl col|v]; simpl; try (intros H; discriminate H).
    rewrite (checkName_refersTo c t tbl col Ht Hv). intros [= H].
    constructor; [exact H|constructor]. }
  induction e as [name args IH|tbl col|v] using Expression_args_ind;
    intros Hwf Hacc.
  - simpl in Hwf. apply andb_true_iff in Hwf. destruct Hwf as [Har Hargs].
    simpl in Hacc. simpl.
    destruct (isLogicName (model.L name)) eqn:Hlogic.
    { simpl in Har. destruct args as [|a0 [|a1 [|a2 rest]]]; try (wrong_arity Har).
      inversion IH as [|? ? IH0 IHrest]; subst.
      inversion IHrest as [|? ? IH1 _]; subst.
      simpl in Hargs.
      apply andb_true_iff in Hargs. destruct Hargs as [H0 Hargs].
      apply andb_true_iff in Hargs. destruct Hargs as [H1 _].
      apply andThen_true in Hacc. destruct Hacc as [A0 A1].
      simpl. rewrite app_nil_r. apply Forall_app. split; [apply IH0|apply IH1]; assumption. }
    destruct (isCompareName (model.L name)) eqn:Hcmp.
    { simpl in Har. destruct args as [|a0 [|a1 [|a2 rest]]]; try (wrong_arity Har).
      simpl. rewrite app_nil_r.
      destruct a0 as [n0 args0|t0 c0|v0]; simpl in Hacc.
      - destruct a1 as [n1 args1|t1 c1|v1]; simpl in Hacc; try discriminate Hacc.
      - destruct a1 as [n1 args1|t1 c1|v1]; simpl in Hacc; try discriminate Hacc.
        simpl. rewrite (checkName_refersTo c t t0 c0 Ht Hv) in Hacc.
        injection Hacc as Hacc. constructor; [exact Hacc|constructor].
      - simpl. apply Hcol. exact Hacc. }
    simpl in Har.
    destruct (isTruthName (model.L name)) eqn:Htruth.
    { simpl in Har. destruct args as [|a0 [|a1 rest]]; try (wrong_arity Har).
      simpl. rewrite app_nil_r. apply Hcol. exact Hacc. }
    destruct (model.L name =? ast.UnaryNot)%string eqn:Hnot.
    { simpl in Har. destruct args as [|a0 [|a1 rest]]; try (wrong_arity Har).
      inversion IH as [|? ? IH0 _]; subst.
      simpl in Hargs. apply andb_true_iff in Hargs. destruct Hargs as [H0 _].
      simpl. rewrite app_nil_r. apply IH0; assumption. }
    discriminate Hacc.
  - apply Hcol. exact Hacc.
  - constructor.
Qed.

Lemma detachLoop_access_columns (table : model.TableInfo) (ix : option model.IndexInfo)
  (off : Z) (conditions acc0 filt0 acc filt : list Expression) :
  let mentionsKey := fun con =>
    Forall (fun tc => refersTo (model.TblName table) (PrimaryKey (detachPkName table))
                        (fst tc) (snd tc) = true) (columnsOf con) in
  Forall (fun con => arityExact con = true) conditions ->
  Forall mentionsKey acc0 ->
  detachLoop (detachPkName table) table ix off conditions acc0 filt0 = Ok (acc, filt) ->
  Forall mentionsKey acc.
Proof.
  intros mentionsKey Hwf. revert acc0 filt0.
  induction Hwf as [|con rest Hcon _ IH]; intros acc0 filt0 Hacc0 H; simpl in H.
  - injection H as <- _. exact Hacc0.
  - destruct (negb (model.L (detachPkName table) =? EmptyString)%string) eqn:Hpk.
    + destruct (newCheck (mkChecker (model.TblName table) ix off (detachPkName table)) con)
        as [[|]|] eqn:Hcheck; try discriminate H.
      * apply (IH _ _) in H; [exact H|].
        apply Forall_app. split; [exact Hacc0|].
        constructor; [|constructor].
        apply (newCheck_true_columns
                 (mkChecker (model.TblName table) ix off (detachPkName table))
                 (PrimaryKey (detachPkName table)) con); try assumption.
        unfold targetOf. simpl. rewrite Hpk. reflexivity.
      * apply (IH _ _) in H; assumption.
    + apply (IH _ _) in H; assumption.
Qed.

(** X9.  On conditions whose scalar functions have exactly the arguments
    the classifier reads, every access condition the splitter returns
    mentions no column but the primary-key column of the table: each
    column reference in it names the table and the key. *)
Theorem access_conditions_mention_only_primary_key
  (conditions : list Expression) (table : model.TableInfo)
  (ix : option model.IndexInfo) (colOffset : Z)
  (accessConditions filterConditions : list Expression)
  (Hwf : Forall (fun con => arityExact con = true) conditions)
  (Hrun : detachConditions conditions table ix colOffset
          = Ok (accessConditions, filterConditions)) :
  Forall (fun con =>
            Forall (fun tc => refersTo (model.TblName table)
                                (PrimaryKey (detachPkName table)) (fst tc) (snd tc) = true)
              (columnsOf con))
    accessConditions.
Proof.
  apply (detachLoop_access_columns table ix colOffset conditions [] []
           accessConditions filterConditions Hwf); [constructor|exact Hrun].
Qed.

(** X9 on [id = 1 OR id = 2] next to [name] over the table with primary
    key [id]. *)
Lemma access_conditions_mention_only_primary_key_witness :
  Forall (fun con =>
            Forall (fun tc => refersTo (Sample.ci "t") (PrimaryKey (Sample.ci "id"))
                                (fst tc) (snd tc) = true)
              (columnsOf con))
    [ScalarFunction (funcName ast.OrOr) [Sample.idEq 1; Sample.idEq 2]].
Proof.
  apply (access_conditions_mention_only_primary_key
           [ScalarFunction (funcName ast.OrOr) [Sample.idEq 1; Sample.idEq 2];
            Sample.nameCol]
           Sample.table None 0
           [ScalarFunction (funcName ast.OrOr) [Sample.idEq 1; Sample.idEq 2]]
           [Sample.nameCol]).
  - repeat constructor.
  - reflexivity.
Defined.

(** The splitter's loop started on lists collected so far is the loop
    started on empty lists, with its outputs appended to them. *)
Lemma detachLoop_accumulators (pk : model.CIStr) (table : model.TableInfo)
  (ix : option model.IndexInfo) (off : Z) (conditions acc filt : list Expression) :
  detachLoop pk table ix off conditions acc filt
  = match detachLoop pk table ix off conditions [] [] with
    | Panic => Panic
    | Ok (a, f) => Ok (acc ++ a, filt ++ f)
    end.
Proof.
  revert acc filt. induction conditions as [|con rest IH]; intros acc filt; simpl.
  - rewrite !app_nil_r. reflexivity.
  - destruct (negb (model.L pk =? EmptyString)%string).
    + destruct (newCheck (mkChecker (model.TblName table) ix off pk) con) as [[|]|];
        [| |reflexivity].
      * rewrite (IH (acc ++ [con]) filt), (IH [con] []).
        destruct (detachLoop pk table ix off rest [] []) as [[a f]|]; [|reflexivity].
        rewrite <- app_assoc. reflexivity.
      * rewrite (IH acc (filt ++ [con])), (IH [] [con]).
        destruct (detachLoop pk table ix off rest [] []) as [[a f]|]; [|reflexivity].
        rewrite <- app_assoc. reflexivity.
    + rewrite (IH acc (filt ++ [con])), (IH [] [con]).
      destruct (detachLoop pk table ix off rest [] []) as [[a f]|]; [|reflexivity].
      rewrite <- app_assoc. reflexivity.
Qed.

Lemma detachLoop_app (pk : model.CIStr) (table : model.TableInfo)
  (ix : option model.IndexInfo) (off : Z) (l1 l2 acc filt : list Expression) :
  detachLoop pk table ix off (l1 ++ l2) acc filt
  = match detachLoop pk table ix off l1 acc filt with
    | Panic => Panic
    | Ok (a, f) => detachLoop pk table ix off l2 a f
    end.
Proof.
  revert acc filt. induction l1 as [|con rest IH]; intros acc filt; simpl.
  - reflexivity.
  - destruct (negb (model.L pk =? EmptyString)%string).
    + destruct (newCheck (mkChecker (model.TblName table) ix off pk) con) as [[|]|];
        [apply IH|apply IH|reflexivity].
    + apply IH.
Qed.

(** X10.  Splitting a concatenation is splitting its two parts and
    concatenating the outputs side by side; it panics exactly when one of
    the parts does. *)
Theorem detachConditions_app
  (l1 l2 : list Expression) (table : model.TableInfo)
  (ix : option model.IndexInfo) (colOffset : Z) :
  detachConditions (l1 ++ l2) table ix colOffset
  = match detachConditions l1 table ix colOffset,
          detachConditions l2 table ix colOffset with
    | Ok (a1, f1), Ok (a2, f2) => Ok (a1 ++ a2, f1 ++ f2)
    | _, _ => Panic
    end.
Proof.
  unfold detachConditions. rewrite detachLoop_app.
  destruct (detachLoop (detachPkName table) table ix colOffset l1 [] []) as [[a1 f1]|];
    [|reflexivity].
  rewrite detachLoop_accumulators.
  destruct (detachLoop (detachPkName table) table ix colOffset l2 [] []) as [[a2 f2]|];
    reflexivity.
Qed.

(** The outputs of the splitter's loop, split again: the access
    conditions are all kept and the residual ones are all left. *)
Lemma detachLoop_resplit (pk : model.CIStr) (table : model.TableInfo)
  (ix : option model.IndexInfo) (off : Z)
  (conditions acc0 filt0 acc filt : list Expression) :
  detachLoop pk table ix off conditions acc0 filt0 = Ok (acc, filt) ->
  exists a f,
    acc = acc0 ++ a /\ filt = filt0 ++ f
    /\ detachLoop pk table ix off a [] [] = Ok (a, [])
    /\ detachLoop pk table ix off f [] [] = Ok ([], f).
Proof.
  revert acc0 filt0. induction conditions as [|con rest IH]; intros acc0 filt0 H;
    simpl in H.
  - injection H as <- <-. exists [], []. rewrite !app_nil_r. repeat split.
  - destruct (negb (model.L pk =? EmptyString)%string) eqn:Hpk.
    + destruct (newCheck (mkChecker (model.TblName table) ix off pk) con)
        as [[|]|] eqn:Hcheck; try discriminate H.
      * destruct (IH _ _ H) as [a [f [Ea [Ef [Ha Hf]]]]].
        exists (con :: a), f. rewrite <- app_assoc in Ea.
        repeat split; try assumption.
        simpl. rewrite Hpk, Hcheck, detachLoop_accumulators, Ha. reflexivity.
      * destruct (IH _ _ H) as [a [f [Ea [Ef [Ha Hf]]]]].
        exists a, (con :: f). rewrite <- app_assoc in Ef.
        repeat split; try assumption.
        simpl. rewrite Hpk, Hcheck, detachLoop_accumulators, Hf. reflexivity.
    + destruct (IH _ _ H) as [a [f [Ea [Ef [Ha Hf]]]]].
      exists a, (con :: f). rewrite <- app_assoc in Ef.
      repeat split; try assumption.
      simpl. rewrite Hpk, detachLoop_accumulators, Hf. reflexivity.
Qed.

Lemma detachConditions_residual_again
  (conditions : list Expression) (table : model.TableInfo)
  (ix : option model.IndexInfo) (colOffset : Z)
  (accessConditions filterConditions : list Expression) :
  detachConditions conditions table ix colOffset = Ok (accessConditions, filterConditions) ->
  detachConditions accessConditions table ix colOffset = Ok (accessConditions, [])
  /\ detachConditions filterConditions table ix colOffset = Ok ([], filterConditions).
Proof.
  unfold detachConditions. intros H.
  destruct (detachLoop_resplit _ _ _ _ _ _ _ _ _ H) as [a [f [Ea [Ef [Ha Hf]]]]].
  simpl in Ea, Ef. subst a f. split; assumption.
Qed.

(** X11.  Splitting is stable on its own outputs: whenever the splitter
    returns, splitting its access conditions again keeps all of them and
    splitting its residual conditions again keeps none. *)
Theorem detachConditions_stable
  (conditions : list Expression) (table : model.TableInfo)
  (ix : option model.IndexInfo) (colOffset : Z)
  (accessConditions filterConditions : list Expression)
  (Hrun : detachConditions conditions table ix colOffset
          = Ok (accessConditions, filterConditions)) :
  detachConditions accessConditions table ix colOffset = Ok (accessConditions, [])
  /\ detachConditions filterConditions table ix colOffset = Ok ([], filterConditions).
Proof.
  apply (detachConditions_residual_again conditions); exact Hrun.
Qed.

(** X11 on the outputs of splitting [id = 1], [name], [3]. *)
Lemma detachConditions_stable_witness :
  detachConditions [Sample.idEq 1; Sample.intConst 3] Sample.table None 0
  = Ok ([Sample.idEq 1; Sample.intConst 3], [])
  /\ detachConditions [Sample.nameCol] Sample.table None 0 = Ok ([], [Sample.nameCol]).
Proof.
  apply (detachConditions_stable
           [Sample.idEq 1; Sample.nameCol; Sample.intConst 3] Sample.table None 0).
  reflexivity.
Defined.

(** * Further facts about the scan ranges *)

Lemma bind_panic {A B : Type} (c : RB A) (k : A -> RB B) (rb : rangeBuilder) :
  c rb = Panic -> bind c k rb = Panic.
Proof.
  intros H. unfold bind. rewrite H. reflexivity.
Qed.

Lemma index_in_range {A : Type} (l : list A) (i : Z) (x : A) :
  index l i = Some x -> 0 <= i < len l.
Proof.
  unfold index, len. destruct (i <? 0) eqn:Hneg; [discriminate|].
  intros H. apply Z.ltb_ge in Hneg.
  assert (Hsome : nth_error l (Z.to_nat i) <> None) by (rewrite H; discriminate).
  apply nth_error_Some in Hsome. lia.
Qed.

(** A counted loop that reads [l[i]] at each step panics when one of its
    indices lies outside [l]. *)
Lemma forLoop_out_of_range {A St : Type} (body : St -> A -> RB St) (l : list A)
  (n : nat) (i : Z) (s : St) (rb : rangeBuilder) :
  (0 < n)%nat ->
  i < 0 \/ len l <= i + Z.of_nat n - 1 ->
  forLoop (fun j acc => x <- at_ l j ;; body acc x) i n s rb = Panic.
Proof.
  revert i s rb. induction n as [|n IH]; intros i s rb Hn Hout; [lia|].
  simpl. unfold bind at 1. unfold bind at 1. unfold at_.
  destruct (index l i) as [x|] eqn:Hx; [|reflexivity].
  apply index_in_range in Hx.
  destruct (body s x rb) as [[s' rb']|]; [|reflexivity].
  apply IH; lia.
Qed.

Section MoreRangeFacts.

Variable m : builderOps.

(** X12.  [buildIndexRange] reads [AccessConditions] at the indices its
    equality count names: with a negative count, or a count above the
    number of conditions, it indexes outside the slice and panics. *)
Theorem buildIndexRange_count_out_of_range (p : IndexScan.t)
  (Hcount : IndexScan.AccessEqualCount p < 0
            \/ len (IndexScan.AccessConditions p) < IndexScan.AccessEqualCount p) :
  buildIndexRange m p = Panic.
Proof.
  destruct p as [tbl conds k ranges0]. simpl in Hcount.
  unfold buildIndexRange, indexRangeSteps. simpl.
  assert (Hlen : 0 <= len conds) by (unfold len; lia).
  destruct (k >? 0) eqn:Hpos.
  - assert (Hk : len conds < k) by lia.
    rewrite bind_panic; [reflexivity|].
    destruct conds as [|c0 rest].
    + apply bind_panic. reflexivity.
    + rewrite (bind_at _ _ c0) by reflexivity.
      rewrite bind_lift. destruct (build m c0 (mkRangeBuilder None)) as [point rb1].
      rewrite bind_lift. destruct (buildIndexRanges m point rb1) as [r0 rb2].
      unfold forRange.
      apply (forLoop_out_of_range (appendCondition m) (c0 :: rest)).
      * unfold len in *. simpl List.length in *. lia.
      * right. unfold len in *. simpl List.length in *. lia.
  - assert (Hk : k < 0) by lia.
    rewrite (bind_run _ _ _ _ ranges0) by reflexivity.
    rewrite bind_panic; [reflexivity|].
    unfold forRange.
    apply (forLoop_out_of_range (intersectCondition m) conds).
    + lia.
    + left. exact Hk.
Qed.

Lemma indexRangeSteps_overwrites (p : IndexScan.t) (r : list IndexRange)
  (rb : rangeBuilder) :
  indexRangeSteps m (IndexScan.setRanges p r) rb = indexRangeSteps m p rb.
Proof.
  destruct p as [tbl conds k ranges0].
  unfold indexRangeSteps, IndexScan.setRanges. simpl.
  destruct (k >? 0) eqn:Hpos; [reflexivity|].
  rewrite (bind_run _ _ _ _ r) by reflexivity.
  rewrite (bind_run _ _ rb rb ranges0) by reflexivity.
  destruct (k =? 0) eqn:Hzero; [reflexivity|].
  assert (Hk : k < 0) by (apply Z.eqb_neq in Hzero; lia).
  assert (Hlen : 0 <= len conds) by (unfold len; lia).
  rewrite !bind_panic; try reflexivity;
    unfold forRange;
    apply (forLoop_out_of_range (intersectCondition m) conds); try lia; left; exact Hk.
Qed.

Lemma tableRangeLoop_fold (conds : list ExprNode) (pts : list rangePoint)
  (rb : rangeBuilder) :
  tableRangeLoop m conds pts rb = fold_left (intersectStep m) conds (pts, rb).
Proof.
  revert pts rb. induction conds as [|cond rest IH]; intros pts rb; simpl.
  - reflexivity.
  - destruct (build m cond rb) as [point rb1].
    destruct (intersection m pts point rb1) as [pts' rb2]. apply IH.
Qed.

(** X13.  The old scans overwrite their ranges: what [buildIndexRange]
    and [buildTableRange] return does not depend on the ranges the node
    had, so building a second time, on the node the first call left,
    returns the same node and the same error. *)
Theorem scan_ranges_overwritten :
  (forall p r, buildIndexRange m (IndexScan.setRanges p r) = buildIndexRange m p)
  /\ (forall p r, buildTableRange m (TableScan.setRanges p r) = buildTableRange m p)
  /\ (forall p p' e, buildIndexRange m p = Ok (p', e) ->
        buildIndexRange m p' = Ok (p', e))
  /\ (forall p p' e, buildTableRange m p = (p', e) ->
        buildTableRange m p' = (p', e)).
Proof.
  assert (Hindex : forall p r,
            buildIndexRange m (IndexScan.setRanges p r) = buildIndexRange m p).
  { intros p r. unfold buildIndexRange. rewrite indexRangeSteps_overwrites.
    destruct (indexRangeSteps m p (mkRangeBuilder None)) as [[ranges rb]|];
      [|reflexivity].
    destruct p. reflexivity. }
  assert (Htable : forall p r,
            buildTableRange m (TableScan.setRanges p r) = buildTableRange m p).
  { intros [tbl conds ranges0] r. unfold buildTableRange. simpl.
    destruct conds as [|c0 rest]; [reflexivity|].
    destruct (tableRangeLoop m (c0 :: rest) fullRange (mkRangeBuilder None)) as [pts rb].
    destruct (buildTableRanges m pts rb) as [ranges rb']. reflexivity. }
  split; [exact Hindex|]. split; [exact Htable|]. split.
  - intros p p' e H.
    assert (Hp' : exists r, p' = IndexScan.setRanges p r).
    { unfold buildIndexRange in H.
      destruct (indexRangeSteps m p (mkRangeBuilder None)) as [[ranges rb]|];
        [|discriminate H].
      injection H as <- _. eexists; reflexivity. }
    destruct Hp' as [r ->]. rewrite Hindex. exact H.
  - intros p p' e H.
    assert (Hp' : exists r, p' = TableScan.setRanges p r).
    { unfold buildTableRange in H.
      destruct (TableScan.AccessConditions p) as [|c0 rest].
      - injection H as <- _. eexists; reflexivity.
      - destruct (tableRangeLoop m (c0 :: rest) fullRange (mkRangeBuilder None))
          as [pts rb].
        destruct (buildTableRanges m pts rb) as [ranges rb'].
        injection H as <- _. eexists; reflexivity. }
    destruct Hp' as [r ->]. rewrite Htable. exact H.
Qed.

(** X14.  A table scan with access conditions: [buildTableRange] builds
    and intersects the points of every condition in order, starting from
    the full range, turns the result into table ranges and returns the
    builder's error.  It runs through all the conditions whatever error
    the builder has recorded on the way, and always writes the ranges. *)
Theorem buildTableRange_conditions (p : TableScan.t)
  (Hconds : TableScan.AccessConditions p <> []) :
  let points :=
    fold_left (intersectStep m) (TableScan.AccessConditions p)
      (fullRange, mkRangeBuilder None) in
  let built := buildTableRanges m (fst points) (snd points) in
  buildTableRange m p = (TableScan.setRanges p (fst built), Trace (err (snd built))).
Proof.
  intros points built. unfold buildTableRange.
  destruct (TableScan.AccessConditions p) as [|c0 rest] eqn:Hc;
    [contradiction Hconds; reflexivity|].
  rewrite tableRangeLoop_fold. fold points.
  destruct points as [pts rb]. simpl in built. subst built.
  destruct (buildTableRanges m pts rb) as [ranges rb']. reflexivity.
Qed.

(** The loop of [buildNewTableRange] stops at the first condition after
    which the builder holds an error. *)
Lemma newTableRangeLoop_first_error (before : list Expression) (c : Expression)
  (after : list Expression) (pts : list rangePoint) (rb : rangeBuilder) (e : error) :
  (forall j, (1 <= j <= List.length before)%nat ->
     err (snd (intersectAll m (firstn j before) pts rb)) = None) ->
  err (snd (intersectAll m (before ++ [c]) pts rb)) = Some e ->
  newTableRangeLoop m (before ++ c :: after) pts rb = inl e.
Proof.
  revert pts rb. induction before as [|b before IH]; intros pts rb Hnone Hsome.
  - simpl in *.
    destruct (newBuild m c rb) as [point rb1].
    destruct (intersection m pts point rb1) as [pts' rb2].
    simpl in Hsome. rewrite Hsome. reflexivity.
  - simpl.
    assert (Hnext : forall j, (j <= List.length before)%nat ->
              err (snd (let (point, rb1) := newBuild m b rb in
                        let (pts', rb2) := intersection m pts point rb1 in
                        intersectAll m (firstn j before) pts' rb2)) = None).
    { intros j Hj. apply (Hnone (S j)). simpl. lia. }
    simpl in Hsome.
    destruct (newBuild m b rb) as [point rb1].
    destruct (intersection m pts point rb1) as [pts' rb2].
    pose proof (Hnext O (Nat.le_0_l _)) as H0. simpl in H0. rewrite H0.
    apply IH; [|exact Hsome].
    intros j Hj. apply Hnext. lia.
Qed.

(** X15.  [buildNewTableRange] stops at the first condition after which
    the builder holds an error: it returns that error, has recorded the
    whole condition list on the scan, leaves the scan's ranges as they
    were, and does not build the conditions that follow. *)
Theorem buildNewTableRange_first_error
  (p : NewTableScan.t) (before : list Expression) (c : Expression)
  (after : list Expression) (e : error)
  (Hnone : forall j, (1 <= j <= List.length before)%nat ->
     err (snd (intersectAll m (firstn j before) fullRange (mkRangeBuilder None))) = None)
  (Hsome : err (snd (intersectAll m (before ++ [c]) fullRange (mkRangeBuilder None)))
           = Some e) :
  buildNewTableRange m p (before ++ c :: after)
  = (NewTableScan.setAccessCondition p (before ++ c :: after), Some (Traced e)).
Proof.
  unfold buildNewTableRange.
  destruct (before ++ c :: after) as [|c0 rest] eqn:Hl.
  - destruct before; discriminate Hl.
  - rewrite <- Hl.
    rewrite (newTableRangeLoop_first_error before c after _ _ e Hnone Hsome).
    reflexivity.
Qed.

End MoreRangeFacts.

(** X12 on an index scan with one condition and an equality count of 2. *)
Lemma buildIndexRange_count_out_of_range_witness :
  buildIndexRange Sample.ops (IndexScan.mk Sample.table [Sample.idEqExpr 1] 2 []) = Panic.
Proof.
  apply buildIndexRange_count_out_of_range. right. unfold len. simpl. lia.
Defined.

(** X13 on an index scan with one equality condition. *)
Lemma scan_ranges_overwritten_witness :
  buildIndexRange Sample.ops
    (IndexScan.mk Sample.table [Sample.idEqExpr 1] 1
       [mkIndexRange [types.Int64 1] false [types.Int64 1] false])
  = Ok (IndexScan.mk Sample.table [Sample.idEqExpr 1] 1
          [mkIndexRange [types.Int64 1] false [types.Int64 1] false], None).
Proof.
  apply (proj1 (proj2 (proj2 (scan_ranges_overwritten Sample.ops)))
           (IndexScan.mk Sample.table [Sample.idEqExpr 1] 1 [])).
  reflexivity.
Defined.

(** X14 on a table scan with the condition [id = 5]. *)
Lemma buildTableRange_conditions_witness :
  buildTableRange Sample.ops (TableScan.mk Sample.table [Sample.idEqExpr 5] [])
  = (TableScan.mk Sample.table [Sample.idEqExpr 5] [mkTableRange 5 5], None).
Proof.
  rewrite (buildTableRange_conditions Sample.ops).
  - reflexivity.
  - discriminate.
Defined.

(** X15 on [id = 5], then the bare column [name] that the builder cannot
    turn into points, then [id = 7]. *)
Lemma buildNewTableRange_first_error_witness :
  buildNewTableRange Sample.ops (NewTableScan.mk Sample.table [] fullTableRanges)
    ([Sample.idEq 5] ++ Sample.nameCol :: [Sample.idEq 7])
  = (NewTableScan.mk Sample.table [Sample.idEq 5; Sample.nameCol; Sample.idEq 7]
       fullTableRanges,
     Some (Traced (errorString "unsupported predicate shape"))).
Proof.
  apply (buildNewTableRange_first_error Sample.ops).
  - intros [|[|j]] Hj; simpl in Hj; try lia. reflexivity.
  - reflexivity.
Defined.

(** * Further facts about selections and the tree driver *)

Lemma setRanges_twice (s : NewTableScan.t) (r r' : list TableRange) :
  NewTableScan.setRanges (NewTableScan.setRanges s r) r' = NewTableScan.setRanges s r'.
Proof.
  destruct s. reflexivity.
Qed.

(** Whatever the splitter returns, its residual output is a filter of its
    input. *)
Lemma detachLoop_returned_filter (table : model.TableInfo) (ix : option model.IndexInfo)
  (off : Z) (conditions acc0 filt0 acc filt : list Expression) :
  detachLoop (detachPkName table) table ix off conditions acc0 filt0 = Ok (acc, filt) ->
  acc = acc0 ++ filter (keeps table ix off) conditions
  /\ filt = filt0 ++ filter (fun con => negb (keeps table ix off con)) conditions.
Proof.
  revert acc0 filt0. induction conditions as [|con rest IH]; intros acc0 filt0 H;
    simpl in H.
  - injection H as <- <-. simpl. rewrite !app_nil_r. split; reflexivity.
  - destruct (negb (model.L (detachPkName table) =? EmptyString)%string) eqn:Hpk.
    + destruct (newCheck (mkChecker (model.TblName table) ix off (detachPkName table)) con)
        as [[|]|] eqn:Hcheck; try discriminate H.
      * assert (Hk : keeps table ix off con = true)
          by (unfold keeps; rewrite Hpk, Hcheck; reflexivity).
        simpl. rewrite Hk. simpl.
        destruct (IH _ _ H) as [Ea Ef]. rewrite <- app_assoc in Ea. split; assumption.
      * assert (Hk : keeps table ix off con = false)
          by (unfold keeps; rewrite Hpk, Hcheck; reflexivity).
        simpl. rewrite Hk. simpl.
        destruct (IH _ _ H) as [Ea Ef]. rewrite <- app_assoc in Ef. split; assumption.
    + assert (Hk : keeps table ix off con = false)
        by (unfold keeps; rewrite Hpk; reflexivity).
      simpl. rewrite Hk. simpl.
      destruct (IH _ _ H) as [Ea Ef]. rewrite <- app_assoc in Ef. split; assumption.
Qed.

Lemma filter_all {A : Type} (l : list A) : filter (fun _ => true) l = l.
Proof.
  induction l as [|a l IH]; simpl; [reflexivity|]. rewrite IH. reflexivity.
Qed.

Section MoreRefineFacts.

Variable m : builderOps.

Lemma buildNewTableRange_table (p : NewTableScan.t) (conds : list Expression) :
  NewTableScan.Table (fst (buildNewTableRange m p conds)) = NewTableScan.Table p.
Proof.
  unfold buildNewTableRange. destruct conds as [|c0 rest]; [reflexivity|].
  destruct (newTableRangeLoop m (c0 :: rest) fullRange (mkRangeBuilder None))
    as [e|[pts rb]]; [reflexivity|].
  destruct (buildTableRanges m pts rb) as [ranges rb']. reflexivity.
Qed.

(** A selection none of whose conditions is accessible gives its scan
    the full range and keeps its conditions. *)
Lemma buildSelection_nothing_accessible (conds : list Expression)
  (s : NewTableScan.t) (grand rest : list Plan) :
  detachConditions conds (NewTableScan.Table s) None 0 = Ok ([], conds) ->
  buildSelection m (Selection.mk conds) (Node (PNewTableScan s) grand :: rest)
  = Ok (Selection.mk conds,
        Node (PNewTableScan (NewTableScan.setRanges s fullTableRanges)) grand :: rest,
        None).
Proof.
  intros H. unfold buildSelection. simpl. rewrite H. reflexivity.
Qed.

(** X16.  A second pass over a selection that was already split finds
    nothing accessible: the selection keeps its residual conditions and
    the scan under it is given the full range again, in place of the
    ranges the first pass built from the accessible conditions. *)
Theorem selection_second_pass
  (p : Selection.t) (tableScan : NewTableScan.t) (grand rest : list Plan)
  (Hwf : Forall (fun con => arityOk con = true) (Selection.Conditions p)) :
  let table := NewTableScan.Table tableScan in
  let accessible := filter (keeps table None 0) (Selection.Conditions p) in
  let residual :=
    filter (fun con => negb (keeps table None 0 con)) (Selection.Conditions p) in
  let scan1 := fst (buildNewTableRange m tableScan accessible) in
  buildSelection m (Selection.mk residual) (Node (PNewTableScan scan1) grand :: rest)
  = Ok (Selection.mk residual,
        Node (PNewTableScan (NewTableScan.setRanges scan1 fullTableRanges)) grand :: rest,
        None)
  /\ refine m (Node (PSelection (Selection.mk residual)) [Node (PNewTableScan scan1) []])
     = Ok (Node (PSelection (Selection.mk residual))
             [Node (PNewTableScan (NewTableScan.setRanges scan1 fullTableRanges)) []],
           None).
Proof.
  intros table accessible residual scan1.
  pose proof (detachConditions_filter (Selection.Conditions p) table None 0 Hwf) as Hrun.
  fold accessible residual in Hrun.
  destruct (detachConditions_residual_again _ _ _ _ _ _ Hrun) as [_ Hres].
  assert (Htable : NewTableScan.Table scan1 = table)
    by apply buildNewTableRange_table.
  clearbody scan1. clear Hrun.
  split.
  - apply buildSelection_nothing_accessible. rewrite Htable. exact Hres.
  - change (refine m (Node (PSelection (Selection.mk residual))
                        [Node (PNewTableScan scan1) []]))
      with (match buildSelection m (Selection.mk residual)
                    [Node (PNewTableScan
                             (NewTableScan.setRanges scan1 fullTableRanges)) []] with
            | Panic => Panic
            | Ok (p', children', e) => Ok (Node (PSelection p') children', Trace e)
            end).
    rewrite buildSelection_nothing_accessible.
    + rewrite setRanges_twice. reflexivity.
    + destruct scan1. simpl in *. rewrite Htable. exact Hres.
Qed.

Lemma refineChildren_done (rec : Plan -> result (Plan * option error))
  (children children' : list Plan) :
  refineChildren rec children = Ok (children', None) ->
  Forall2 (fun c c' => rec c = Ok (c', None)) children children'.
Proof.
  revert children'. induction children as [|b rest IH]; intros children' H; simpl in H.
  - injection H as <-. constructor.
  - destruct (rec b) as [[b' [eb|]]|] eqn:Hb; try discriminate H.
    destruct (refineChildren rec rest) as [[rest' oe]|] eqn:Hrest; try discriminate H.
    injection H as <- ->. constructor; [exact Hb|]. apply IH. reflexivity.
Qed.

Lemma flat_map_postorder_Forall2 (R : PlanNode -> PlanNode -> Prop)
  (children children' : list Plan) :
  Forall2 (fun c c' => Forall2 R (postorder c) (postorder c')) children children' ->
  Forall2 R (flat_map postorder children) (flat_map postorder children').
Proof.
  induction 1 as [|c c' rest rest' Hc _ IH]; simpl.
  - constructor.
  - apply Forall2_app; assumption.
Qed.

(** The step of a node that returns no error: the node is refined from
    the one before, and the only other node touched is the scan under a
    selection, which keeps its table. *)
Lemma refineNode_frame (x : PlanNode) (children : list Plan) (q : Plan) :
  refineNode m x children = Ok (q, None) ->
  refinedFrom x (nodeOf q)
  /\ forall l, Forall2 refinedFrom l (flat_map postorder children) ->
               Forall2 refinedFrom l (flat_map postorder (GetChildren q)).
Proof.
  destruct x as [p|p|p|p|p|kind]; simpl.
  - unfold buildIndexRange.
    destruct (indexRangeSteps m p (mkRangeBuilder None)) as [[ranges rb]|];
      [|discriminate].
    intros [= <- _]. simpl. destruct p. simpl. repeat split. intros l Hl. exact Hl.
  - intros [= <-]. simpl. split; [reflexivity|]. intros l Hl. exact Hl.
  - unfold buildTableRange. destruct p as [tbl conds ranges0]. simpl.
    destruct conds as [|c0 rest].
    + intros [= <-]. simpl. repeat split. intros l Hl. exact Hl.
    + destruct (tableRangeLoop m (c0 :: rest) fullRange (mkRangeBuilder None)) as [pts rb].
      destruct (buildTableRanges m pts rb) as [ranges rb'].
      intros [= <- _]. simpl. repeat split.
      * intros H. discriminate H.
      * intros l Hl. exact Hl.
  - intros [= <-]. simpl. split; [destruct p; reflexivity|]. intros l Hl. exact Hl.
  - unfold buildSelection.
    destruct children as [|[[ | | |ts| | ] grand] rest]; simpl;
      try (intros [= <-]; simpl; split;
           [exists (fun _ => true); rewrite filter_all; reflexivity
           |intros l Hl; exact Hl]).
    unfold detachConditions.
    destruct (detachLoop (detachPkName (NewTableScan.Table ts)) (NewTableScan.Table ts)
                None 0 (Selection.Conditions p) [] []) as [[acc filt]|] eqn:Hloop;
      [|discriminate].
    pose proof (buildNewTableRange_table ts acc) as Htable.
    destruct (buildNewTableRange m ts acc) as [ts' e]. simpl in Htable.
    intros [= <- _]. simpl. split.
    + destruct (detachLoop_returned_filter _ _ _ _ _ _ _ _ Hloop) as [_ Ef].
      simpl in Ef. eexists. exact Ef.
    + intros l Hl.
      apply Forall2_app_inv_r in Hl. destruct Hl as [l1 [l2 [H1 [H2 ->]]]].
      apply Forall2_app_inv_r in H1. destruct H1 as [l1a [l1b [Ha [Hb ->]]]].
      apply Forall2_app; [|exact H2].
      apply Forall2_app; [exact Ha|].
      inversion Hb as [|x0 y0 l0 l0' Hx Hnil]; subst.
      inversion Hnil; subst.
      constructor; [|constructor].
      destruct x0; simpl in Hx; try contradiction.
      simpl. rewrite Htable. exact Hx.
  - intros [= <-]. simpl. split; [reflexivity|]. intros l Hl. exact Hl.
Qed.

(** X17.  What a refinement that returns no error leaves alone.  Node by
    node in post-order, the tree after [Refine] has the kinds of the tree
    before; index and table scans keep their table, their access
    conditions and their equality count; a new table scan keeps its
    table; a selection has lost conditions at most, never gained or
    reordered one; a limit is the old one after [SetLimit(0)]; a node of
    any other kind is unchanged; and a table scan without access
    conditions carries the full range. *)
Theorem refine_keeps_frame (p p' : Plan)
  (Hrun : Refine m p = Ok (p', None)) :
  Forall2 refinedFrom (postorder p) (postorder p').
Proof.
  unfold Refine in Hrun. revert p' Hrun.
  induction p as [x children IH] using Plan_children_ind.
  intros p' H. simpl in H.
  destruct (refineChildren (refine m) children) as [[children' [e|]]|] eqn:Hloop;
    try discriminate H.
  apply refineChildren_done in Hloop.
  assert (Hchildren : Forall2 refinedFrom (flat_map postorder children)
                        (flat_map postorder children')).
  { apply flat_map_postorder_Forall2.
    clear H. induction Hloop as [|c c' rest rest' Hc _ IHrest].
    - constructor.
    - inversion IH as [|? ? IHc IHtail]; subst.
      constructor; [apply IHc; exact Hc|apply IHrest; exact IHtail]. }
  destruct (refineNode_frame x children' p' H) as [Hnode Hframe].
  destruct p' as [x' children'']. simpl in *.
  apply Forall2_app.
  - apply Hframe. exact Hchildren.
  - constructor; [exact Hnode|constructor].
Qed.

End MoreRefineFacts.

(** X16 on the selection [id = 5], [name] over a new table scan: the
    first pass left the range [(5, 5)] and the condition [name]. *)
Lemma selection_second_pass_witness :
  buildSelection Sample.ops (Selection.mk [Sample.nameCol])
    [Node (PNewTableScan
             (NewTableScan.mk Sample.table [Sample.idEq 5] [mkTableRange 5 5])) []]
  = Ok (Selection.mk [Sample.nameCol],
        [Node (PNewTableScan
                 (NewTableScan.mk Sample.table [Sample.idEq 5] fullTableRanges)) []],
        None).
Proof.
  apply (proj1 (selection_second_pass Sample.ops
                  (Selection.mk [Sample.idEq 5; Sample.nameCol])
                  (NewTableScan.mk Sample.table [] fullTableRanges) [] []
                  ltac:(repeat constructor))).
Defined.

(** X17 on a selection over a new table scan. *)
Lemma refine_keeps_frame_witness :
  Forall2 refinedFrom
    [PNewTableScan (NewTableScan.mk Sample.table [] []);
     PSelection (Selection.mk [Sample.idEq 5; Sample.nameCol])]
    [PNewTableScan (NewTableScan.mk Sample.table [Sample.idEq 5] [mkTableRange 5 5]);
     PSelection (Selection.mk [Sample.nameCol])].
Proof.
  apply (refine_keeps_frame Sample.ops
           (Node (PSelection (Selection.mk [Sample.idEq 5; Sample.nameCol]))
              [Node (PNewTableScan (NewTableScan.mk Sample.table [] [])) []])
           (Node (PSelection (Selection.mk [Sample.nameCol]))
              [Node (PNewTableScan
                       (NewTableScan.mk Sample.table [Sample.idEq 5] [mkTableRange 5 5]))
                 []])).
  reflexivity.
Defined.

Section RefineOutcomes.

Variable m : builderOps.

Lemma refineNode_cannot_fail (x : PlanNode) (children : list Plan) :
  stepCannotFail x = true ->
  exists q, refineNode m x children = Ok (q, None).
Proof.
  destruct x as [p|p|p|p|p|kind]; simpl; try discriminate; intros H;
    try (eexists; reflexivity).
  unfold buildTableRange.
  destruct (TableScan.AccessConditions p); [|discriminate H].
  eexists; reflexivity.
Qed.

(** X18.  A plan made only of limits, new table scans, table scans without
    access conditions and nodes of other kinds is refined without error
    and without panic: no range builder runs on it. *)
Theorem refine_without_builder (p : Plan)
  (Hnodes : Forall (fun x => stepCannotFail x = true) (postorder p)) :
  exists p', Refine m p = Ok (p', None).
Proof.
  unfold Refine. induction p as [x children IH] using Plan_children_ind.
  simpl in Hnodes. apply Forall_app in Hnodes. destruct Hnodes as [Hchildren Hx].
  inversion Hx as [|? ? Hstep _]; subst.
  assert (Hloop : exists children',
            refineChildren (refine m) children = Ok (children', None)).
  { clear Hx Hstep. induction children as [|c rest IHrest].
    - eexists; reflexivity.
    - simpl in Hchildren. apply Forall_app in Hchildren.
      destruct Hchildren as [Hc Hrest].
      inversion IH as [|? ? IHc IHtail]; subst.
      destruct (IHc Hc) as [c' Ec].
      destruct (IHrest IHtail Hrest) as [rest' Erest].
      exists (c' :: rest'). simpl. rewrite Ec, Erest. reflexivity. }
  destruct Hloop as [children' Hloop]. simpl. rewrite Hloop.
  apply refineNode_cannot_fail. exact Hstep.
Qed.

(** X19.  An error out of [Refine] comes from the step of an index scan,
    of a table scan with access conditions or of a selection that is in
    the plan, and reaches the caller as the error of that step with
    nothing around it but [errors.Trace] wrappers. *)
Theorem refine_error_source (p p' : Plan) (e : error)
  (Hrun : Refine m p = Ok (p', Some e)) :
  exists x k e0 children q,
    In x (postorder p)
    /\ stepCannotFail x = false
    /\ refineNode m x children = Ok (q, Some e0)
    /\ e = traces k e0.
Proof.
  unfold Refine in Hrun.
  destruct (refine_error_suffix m p p' e Hrun)
    as [fin [fin' [x [x' [pend [k [e0 [cs [q [P1 [_ [_ [P4 [_ P6]]]]]]]]]]]]]].
  exists x, k, e0, cs, q. repeat split; try assumption.
  - rewrite P1. apply in_or_app. right. left. reflexivity.
  - destruct (stepCannotFail x) eqn:Hstep; [|reflexivity].
    destruct (refineNode_cannot_fail x cs Hstep) as [q' Hq].
    rewrite Hq in P4. discriminate P4.
Qed.

End RefineOutcomes.

(** X18 on a limit over a new table scan. *)
Lemma refine_without_builder_witness :
  exists p',
    Refine Sample.ops
      (Node (PLimit (Limit.mk 0 10 7))
         [Node (PNewTableScan (NewTableScan.mk Sample.table [] [])) []])
    = Ok (p', None).
Proof.
  apply refine_without_builder. repeat constructor.
Defined.

(** X19 on a join over a table scan whose condition the builder cannot
    turn into points. *)
Lemma refine_error_source_witness :
  exists x k e0 children q,
    In x (postorder
            (Node (POther "join")
               [Node (PTableScan (TableScan.mk Sample.table [Sample.nameExpr] [])) []]))
    /\ stepCannotFail x = false
    /\ refineNode Sample.ops x children = Ok (q, Some e0)
    /\ Traced (Traced (Traced (errorString "unsupported predicate shape")))
       = traces k e0.
Proof.
  apply (refine_error_source Sample.ops
           (Node (POther "join")
              [Node (PTableScan (TableScan.mk Sample.table [Sample.nameExpr] [])) []])
           (Node (POther "join")
              [Node (PTableScan (TableScan.mk Sample.table [Sample.nameExpr] [])) []])).
  reflexivity.
Defined.

(** X20.  The key the splitter classifies against.  With [PKIsHandle]
    set, it is the name of the first column that has the primary-key
    flag; columns flagged after it are not looked at.  With [PKIsHandle]
    unset there is no key, whatever the flags are. *)
Theorem primary_key_is_first_flagged (table : model.TableInfo) :
  (forall before colInfo rest,
     model.PKIsHandle table = true ->
     model.Columns table = before ++ colInfo :: rest ->
     Forall (fun c => mysql.HasPriKeyFlag (model.Flag c) = false) before ->
     mysql.HasPriKeyFlag (model.Flag colInfo) = true ->
     detachPkName table = model.Name colInfo)
  /\ (model.PKIsHandle table = false -> detachPkName table = emptyCIStr).
Proof.
  unfold detachPkName. split.
  - intros before colInfo rest Hhandle Hcols Hbefore Hflag.
    rewrite Hhandle, Hcols. clear Hcols.
    induction Hbefore as [|b before Hb _ IH]; simpl.
    + rewrite Hflag. reflexivity.
    + rewrite Hb. exact IH.
  - intros Hhandle. rewrite Hhandle. reflexivity.
Qed.

(** X20 on a table with two flagged columns, [id] before [other]. *)
Lemma primary_key_is_first_flagged_witness :
  detachPkName
    (model.mkTableInfo (Sample.ci "t")
       [ model.mkColumnInfo (Sample.ci "name") 0;
         model.mkColumnInfo (Sample.ci "id") 2;
         model.mkColumnInfo (Sample.ci "other") 2 ] true)
  = Sample.ci "id".
Proof.
  apply (proj1 (primary_key_is_first_flagged
                  (model.mkTableInfo (Sample.ci "t")
                     [ model.mkColumnInfo (Sample.ci "name") 0;
                       model.mkColumnInfo (Sample.ci "id") 2;
                       model.mkColumnInfo (Sample.ci "other") 2 ] true))
           [model.mkColumnInfo (Sample.ci "name") 0]
           (model.mkColumnInfo (Sample.ci "id") 2)
           [model.mkColumnInfo (Sample.ci "other") 2]);
    try reflexivity.
  repeat constructor.
Defined.

(** * Where refinement stops *)

Section RefineAbort.

Variable m : builderOps.






End RefineAbort.


